(** * flash: the fastboot flashing orchestrator, its progress aggregator
      and its device recogniser

    A shallow embedding of
    - [createSteps] and [withProgress] (the progress module),
    - [isRecognizedDevice] and [useFastboot] (the fastboot module),
    - the tables, the title and the unload warning of the flashing view,
    - [getWorkerInstance] (the image worker module),
    followed by the properties proved about them.

    Conventions of the embedding.
    - JavaScript numbers are exact rationals ([Qc]); rounding, [NaN] and
      the infinities are outside the model.
    - JavaScript strings are [string]; [startsWith], [endsWith] and
      [substring] are written out below.
    - A plain object used as a dictionary is a [gmap string string].
    - A promise is resolved, rejected or never settled; an asynchronous
      function is run to completion against the answers of its
      environment. *)

From Stdlib Require Import QArith Qcanon Ascii.
From stdpp Require Import base option list gmap strings fin_maps.

Open Scope Qc_scope.

(** ** JavaScript helpers *)

Module JS.

(** [s.startsWith(p)] *)
Definition startsWith (s p : string) : bool := String.prefix p s.

(** [s.endsWith(p)] *)
Definition endsWith (s p : string) : bool :=
  let n := String.length s in
  let k := String.length p in
  if (k <=? n)%nat then String.eqb (String.substring (n - k) k s) p else false.

(** [s.substring(start)] and [s.substring(start, stop)], for
    [start <= stop]. *)
Definition substring_from (s : string) (start : nat) : string :=
  String.substring start (String.length s - start) s.

Definition substring (s : string) (start stop : nat) : string :=
  String.substring start (stop - start) s.

(** [l.includes(x)] on an array of strings. *)
Definition includes (l : list string) (x : string) : bool :=
  existsb (String.eqb x) l.

(** [a !== b] on numbers. *)
Definition strict_neq (a b : Qc) : bool := negb (bool_decide (a = b)).

(** [l.reduce(f, init)], with the index handed to [f] as third argument. *)
Fixpoint reduce_from {A B} (f : B -> A -> nat -> B) (idx : nat) (l : list A)
    (acc : B) : B :=
  match l with
  | [] => acc
  | x :: l' => reduce_from f (S idx) l' (f acc x idx)
  end.

Definition reduce {A B} (f : B -> A -> nat -> B) (init : B) (l : list A) : B :=
  reduce_from f 0 l init.

(** A numeric property that may be absent ([undefined]) is an
    [option Qc]; [a || b] keeps [a] when it is truthy, that is present
    and not zero. *)
Definition truthy (a : option Qc) : bool :=
  match a with
  | Some q => negb (bool_decide (q = 0))
  | None => false
  end.

Definition or (a b : option Qc) : option Qc := if truthy a then a else b.

(** [a || n] with a number on the right: the result is a number. *)
Definition or_num (a : option Qc) (n : Qc) : Qc :=
  match a with
  | Some q => if bool_decide (q = 0) then n else q
  | None => n
  end.

End JS.

(** ** The manifest model *)

Module Manifest.

(** Modelled from the spec: the [Image] type of the manifest module,
    which the orchestrator imports. The orchestrator and the progress
    module read [name], [size] and [sparse]; [size] may be absent from a
    manifest entry. *)
Record Image := mkImage {
  name : string;
  size : option Qc;
  sparse : bool;
  checksum : string;
}.

End Manifest.

(** ** The progress module *)

Module Progress.

(** The variables captured by the callbacks of one [createSteps] call.
    [progress] is the binding [updateProgress] assigns to. [recomputed]
    counts the calls of [updateProgress]; it is not a variable of the
    source. *)
Record closure := mkClosure {
  stepWeights : list Qc;
  progressParts : list Qc;
  totalSize : Qc;
  progress : Qc;
  recomputed : nat;
}.

Definition callback : Type := Qc -> closure -> closure.

(** The [steps] argument: a number or an array of numbers. *)
Inductive steps_arg :=
  | StepCount (n : nat)
  | StepList (weights : list Qc).

(** [progressParts[idx]]; every index read is in range, see
    [run_ok]. *)
Definition part (progressParts : list Qc) (idx : nat) : Qc :=
  default 0 (progressParts !! idx).

Definition updateProgress (c : closure) : closure :=
  let weightedAverage :=
    JS.reduce (fun acc weight idx => acc + part (progressParts c) idx * weight)
      0 (stepWeights c) in
  {| stepWeights := stepWeights c;
     progressParts := progressParts c;
     totalSize := totalSize c;
     progress := weightedAverage / totalSize c;
     recomputed := S (recomputed c) |}.

Definition set_part (idx : nat) (v : Qc) (c : closure) : closure :=
  {| stepWeights := stepWeights c;
     progressParts := <[idx := v]> (progressParts c);
     totalSize := totalSize c;
     progress := progress c;
     recomputed := recomputed c |}.

(** The callback made for index [idx]. *)
Definition step_callback (idx : nat) : callback := fun v c =>
  if JS.strict_neq (part (progressParts c) idx) v
  then updateProgress (set_part idx v c)
  else c.

Definition createSteps (steps : steps_arg) (progress : Qc)
    : closure * list callback :=
  let stepWeights :=
    match steps with
    | StepCount n => replicate n 1
    | StepList weights => weights
    end in
  let progressParts := replicate (length stepWeights) 0 in
  let totalSize := JS.reduce (fun total weight _ => total + weight) 0 stepWeights in
  ({| stepWeights := stepWeights;
      progressParts := progressParts;
      totalSize := totalSize;
      progress := progress;
      recomputed := 0 |},
   imap (fun idx _ => step_callback idx) stepWeights).

(** What [withProgress] reads of a step: whether it is a number, and its
    [size] and [length] properties. *)
Class StepLike (T : Type) := {
  as_number : T -> option Qc;
  size_of : T -> option Qc;
  length_of : T -> option Qc;
}.

#[global] Instance number_step : StepLike Qc :=
  {| as_number := Some; size_of := fun _ => None; length_of := fun _ => None |}.

#[global] Instance image_step : StepLike Manifest.Image :=
  {| as_number := fun _ => None;
     size_of := Manifest.size;
     length_of := fun _ => None |}.

(** [typeof step === 'number' ? step : step.size || step.length || 1] *)
Definition stepWeight {T} `{StepLike T} (step : T) : Qc :=
  match as_number step with
  | Some n => n
  | None => JS.or_num (JS.or (size_of step) (length_of step)) 1
  end.

Definition withProgress {T} `{StepLike T} (steps : list T) (progress : Qc)
    : closure * list (T * option callback) :=
  let '(c, callbacks) := createSteps (StepList (map stepWeight steps)) progress in
  (c, imap (fun idx step => (step, callbacks !! idx)) steps).

(** Invoking the callback of task [i] with [v]; a task without a
    callback cannot be updated. *)
Definition invoke (callbacks : list callback) (c : closure) (u : nat * Qc)
    : closure :=
  match callbacks !! u.1 with
  | Some cb => cb u.2 c
  | None => c
  end.

Definition run (callbacks : list callback) (c : closure)
    (updates : list (nat * Qc)) : closure :=
  foldl (invoke callbacks) c updates.

(** *** The specification's words *)


Fixpoint sum_weights (ws : list Qc) : Qc :=
  match ws with
  | [] => 0
  | w :: ws' => w + sum_weights ws'
  end.


(** The last value reported for task [i], 0 when there is none. *)
Definition last_reported (updates : list (nat * Qc)) (i : nat) : Qc :=
  foldl (fun last u => if decide (u.1 = i) then u.2 else last) 0 updates.

(** The weights a [createSteps] call works with. *)
Definition weights_of (steps : steps_arg) : list Qc :=
  match steps with
  | StepCount n => replicate n 1
  | StepList weights => weights
  end.

(** What every closure reached from [createSteps] satisfies. *)
Definition closure_ok (ws : list Qc) (c : closure) : Prop :=
  stepWeights c = ws /\ totalSize c = sum_weights ws
  /\ length (progressParts c) = length ws.

(** The weight rule in the specification's words. *)
Definition fallback_weight {T} `{StepLike T} (step : T) : Qc :=
  match as_number step with
  | Some n => n
  | None =>
      match size_of step with
      | Some s => if decide (s = 0) then
                    match length_of step with
                    | Some l => if decide (l = 0) then 1 else l
                    | None => 1
                    end
                  else s
      | None =>
          match length_of step with
          | Some l => if decide (l = 0) then 1 else l
          | None => 1
          end
      end
  end.

(** *** Ranges of the values *)




End Progress.

(** ** The fastboot module *)

Module Fastboot.

Import Manifest.

Inductive Step :=
  | READY | CONNECTING | DOWNLOADING | UNPACKING | FLASHING | ERASING | DONE.


Inductive Error :=
  | UNKNOWN | NONE | UNRECOGNIZED_DEVICE | LOST_CONNECTION | DOWNLOAD_FAILED
  | UNPACK_FAILED | CHECKSUM_MISMATCH | FLASH_FAILED | ERASE_FAILED
  | REQUIREMENTS_NOT_MET.

Definition Error_code (e : Error) : Z :=
  match e with
  | UNKNOWN => -1 | NONE => 0 | UNRECOGNIZED_DEVICE => 1 | LOST_CONNECTION => 2
  | DOWNLOAD_FAILED => 3 | UNPACK_FAILED => 4 | CHECKSUM_MISMATCH => 5
  | FLASH_FAILED => 6 | ERASE_FAILED => 7 | REQUIREMENTS_NOT_MET => 8
  end.

#[export] Instance Step_eq_dec : EqDecision Step.
Proof. solve_decision. Defined.

#[export] Instance Error_eq_dec : EqDecision Error.
Proof. solve_decision. Defined.

(** [if (error)]: every kind but [NONE], whose code is 0, is truthy. *)
Definition error_truthy (e : Error) : bool := negb (Error_code e =? 0)%Z.

(** *** The device recogniser *)

(** [Object.keys(deviceInfo)]. The order of enumeration is not
    observable in the result of [isRecognizedDevice]. *)
Definition Object_keys (deviceInfo : gmap string string) : list string :=
  (map_to_list deviceInfo).*1.

(** [deviceInfo[k] !== s] *)
Definition differs (v : option string) (s : string) : bool :=
  negb (bool_decide (v = Some s)).

(** [!deviceInfo[k]]: the property is absent or the empty string. *)
Definition falsy (v : option string) : bool :=
  match v with
  | Some s => String.eqb s EmptyString
  | None => true
  end.

Definition expectedPartitions : list string := [
  "ALIGN_TO_128K_1"; "ALIGN_TO_128K_2"; "ImageFv"; "abl"; "aop"; "apdp";
  "bluetooth"; "boot"; "cache"; "cdt"; "cmnlib"; "cmnlib64"; "ddr"; "devcfg";
  "devinfo"; "dip"; "dsp"; "fdemeta"; "frp"; "fsc"; "fsg"; "hyp"; "keymaster";
  "keystore"; "limits"; "logdump"; "logfs"; "mdtp"; "mdtpsecapp"; "misc";
  "modem"; "modemst1"; "modemst2"; "msadp"; "persist"; "qupfw"; "rawdump";
  "sec"; "splash"; "spunvm"; "ssd"; "sti"; "storsec"; "system"; "systemrw";
  "toolsfv"; "tz"; "userdata"; "vm-linux"; "vm-system"; "xbl"; "xbl_config"
].

(** The body of the loop over the keys, from [key.substring] to the
    suffix test. *)
Definition partition_of_key (key : string) : string :=
  let partition := JS.substring_from key (String.length "partition-type:") in
  if JS.endsWith partition "_a" || JS.endsWith partition "_b"
  then JS.substring partition 0 (String.length partition - 2)
  else partition.

Definition collect_partition (partitions : list string) (key : string)
    : list string :=
  if negb (JS.startsWith key "partition-type:") then partitions
  else
    let partition := partition_of_key key in
    if JS.includes partitions partition then partitions
    else partitions ++ [partition].

Definition isRecognizedDevice (deviceInfo : gmap string string) : bool :=
  let kernel := deviceInfo !! "kernel" in
  let maxDownloadSize := deviceInfo !! "max-download-size" in
  let slotCount := deviceInfo !! "slot-count" in
  if differs kernel "uefi" || differs maxDownloadSize "104857600"
     || differs slotCount "2"
  then false
  else
    let partitions := foldl collect_partition [] (Object_keys deviceInfo) in
    if negb (forallb (fun partition => JS.includes expectedPartitions partition)
               partitions)
    then false
    else if falsy (deviceInfo !! "serialno") then false
    else true.

(** The specification's words: a name with its slot suffix [_a] or [_b]
    taken off, if it has one. *)
Inductive strip_slot : string -> string -> Prop :=
  | strip_slot_a base : strip_slot (base +:+ "_a") base
  | strip_slot_b base : strip_slot (base +:+ "_b") base
  | strip_slot_none name :
      (forall base, name <> base +:+ "_a" /\ name <> base +:+ "_b") ->
      strip_slot name name.

(** [p] is a partition name of the device: some key
    [partition-type:<name>] exists and [p] is [<name>] without its slot
    suffix. *)
Definition partition_name (deviceInfo : gmap string string) (p : string) : Prop :=
  exists name,
    is_Some (deviceInfo !! ("partition-type:" +:+ name)) /\ strip_slot name p.

(** *** The session state of [useFastboot] *)

(** [initializePromise]: [null], a promise that has settled with the
    given result, or a promise that never settles. *)
Inductive promise := NoPromise | Settled (r : bool) | NeverSettles.

(** [onRetry] is [true] once the retry action has been installed.
    [imageWorker] records whether [getWorkerInstance()] returned a
    worker; it is a constant of the session. *)
Record session := mkSession {
  step : Step;
  message : string;
  progress : Qc;
  error : Error;
  isInitialized : bool;
  connected : bool;
  serial : option string;
  onRetry : bool;
  manifest : option (list Image);
  initializePromise : promise;
  imageWorker : bool;
}.

Definition set_step (x : Step) (s : session) : session :=
  mkSession x (message s) (progress s) (error s) (isInitialized s) (connected s)
    (serial s) (onRetry s) (manifest s) (initializePromise s) (imageWorker s).

Definition set_message (x : string) (s : session) : session :=
  mkSession (step s) x (progress s) (error s) (isInitialized s) (connected s)
    (serial s) (onRetry s) (manifest s) (initializePromise s) (imageWorker s).

Definition set_progress (x : Qc) (s : session) : session :=
  mkSession (step s) (message s) x (error s) (isInitialized s) (connected s)
    (serial s) (onRetry s) (manifest s) (initializePromise s) (imageWorker s).

Definition set_error (x : Error) (s : session) : session :=
  mkSession (step s) (message s) (progress s) x (isInitialized s) (connected s)
    (serial s) (onRetry s) (manifest s) (initializePromise s) (imageWorker s).

Definition set_isInitialized (x : bool) (s : session) : session :=
  mkSession (step s) (message s) (progress s) (error s) x (connected s)
    (serial s) (onRetry s) (manifest s) (initializePromise s) (imageWorker s).

Definition set_connected (x : bool) (s : session) : session :=
  mkSession (step s) (message s) (progress s) (error s) (isInitialized s) x
    (serial s) (onRetry s) (manifest s) (initializePromise s) (imageWorker s).

Definition set_serial (x : option string) (s : session) : session :=
  mkSession (step s) (message s) (progress s) (error s) (isInitialized s)
    (connected s) x (onRetry s) (manifest s) (initializePromise s) (imageWorker s).

Definition set_onRetry (x : bool) (s : session) : session :=
  mkSession (step s) (message s) (progress s) (error s) (isInitialized s)
    (connected s) (serial s) x (manifest s) (initializePromise s) (imageWorker s).

Definition set_manifest (x : option (list Image)) (s : session) : session :=
  mkSession (step s) (message s) (progress s) (error s) (isInitialized s)
    (connected s) (serial s) (onRetry s) x (initializePromise s) (imageWorker s).

Definition set_initializePromise (x : promise) (s : session) : session :=
  mkSession (step s) (message s) (progress s) (error s) (isInitialized s)
    (connected s) (serial s) (onRetry s) (manifest s) x (imageWorker s).

(** The state [useFastboot] starts from. *)
Definition initial (imageWorker : bool) : session :=
  mkSession READY EmptyString (-1) NONE false false None false None NoPromise imageWorker.

(** *** [initialize] and [handleContinue] *)

(** What the try block of [initialize] comes to: one of its awaits never
    settles, one of its steps throws, or [createManifest] returns. *)
Inductive load := LoadHangs | LoadThrows | Loaded (images : list Image).

(** What an initialization attempt finds: the three capabilities, in
    the order they are tested, and the outcome of the try block. *)
Record init_env := mkInitEnv {
  has_usb : bool;
  has_Worker : bool;
  has_Storage : bool;
  loaded : load;
}.

(** The result is the value the returned promise settles with, [None]
    when it never settles. A promise made by an attempt that returns
    before its first await stays in [initializePromise]; the [finally]
    clause of the try block clears it. *)
Definition initialize (env : init_env) (s : session) : session * option bool :=
  if isInitialized s then (s, Some true)
  else
    match initializePromise s with
    | Settled r => (s, Some r)
    | NeverSettles => (s, None)
    | NoPromise =>
        if negb (has_usb env) then
          (set_initializePromise (Settled false) (set_error REQUIREMENTS_NOT_MET s),
           Some false)
        else if negb (has_Worker env) then
          (set_initializePromise (Settled false) (set_error REQUIREMENTS_NOT_MET s),
           Some false)
        else if negb (has_Storage env) then
          (set_initializePromise (Settled false) (set_error REQUIREMENTS_NOT_MET s),
           Some false)
        else if negb (imageWorker s) then
          (set_initializePromise (Settled false) s, Some false)
        else
          match loaded env with
          | LoadHangs => (set_initializePromise NeverSettles s, None)
          | LoadThrows => (set_error UNKNOWN s, Some false)
          | Loaded images =>
              let s := set_manifest (Some images) s in
              if (length images =? 0)%nat then (set_error UNKNOWN s, Some false)
              else (set_isInitialized true s, Some true)
          end
    end.

Definition handleContinue (env : init_env) (s : session) : session :=
  let '(s, settled) :=
    if negb (isInitialized s) then initialize env s else (s, Some true) in
  match settled with
  | None => s
  | Some _ =>
      if negb (bool_decide (error s = NONE)) then s
      else set_step CONNECTING s
  end.

(** *** The environment of a stage *)

(** What a promise of the transport or of the image worker resolves
    with: [undefined], [null], a string, or an object (a file handle, a
    blob) known by its reference. *)
Inductive value := VUndefined | VNull | VString (s : string) | VObject (ref : nat).

#[export] Instance value_eq_dec : EqDecision value.
Proof. solve_decision. Defined.

(** What a stage body can fail with: a failure message, thrown by the
    body or carried by a rejected promise, or the [TypeError] raised by
    the runtime on a property access that cannot be made. *)
Inductive exn := Failure (message : string) | TypeError.

(** The calls a stage makes on the transport ([fastboot]) and on the
    image worker. *)
Inductive action :=
  | WaitForConnect
  | Connect
  | GetVariable (name : string)
  | RunCommand (command : string)
  | FlashBlob (partition : string) (blob : value) (slot : string)
  | DownloadImage (image : Image)
  | UnpackImage (image : Image)
  | GetImage (image : Image)
  | GetFile (fileHandle : nat).

(** Modelled from the spec: the transport library and the image worker
    are not part of these sources. A call resolves with a value, is
    rejected with a failure message, or never settles. *)
Inductive outcome := Resolved (v : value) | Rejected (message : string) | Pending.

(** The answers of the environment during one run of a stage: the
    outcome of each call, which may depend on the calls made before it,
    and whether the promise of [connect] settles after the chain hanging
    on [waitForConnect] has finished. *)
Record world := mkWorld {
  answer : list action -> action -> outcome;
  connect_settles_last : bool;
}.

(** *** Asynchronous functions *)

Inductive result (A : Type) :=
  | Returned (a : A)
  | Threw (e : exn)
  | Hung.

Arguments Returned {A} a.
Arguments Threw {A} e.
Arguments Hung {A}.

(** An asynchronous function reads the answers of the world, updates
    the session, records the calls it makes and returns, throws or stays
    suspended for ever. *)
Definition M (A : Type) : Type :=
  world -> session * list action -> (session * list action) * result A.

#[export] Instance M_ret : MRet M := fun A a _ st => (st, Returned a).

#[export] Instance M_bind : MBind M := fun A B f m w st =>
  match m w st with
  | (st', Returned a) => f a w st'
  | (st', Threw e) => (st', Threw e)
  | (st', Hung) => (st', Hung)
  end.

Definition throw {A} (e : exn) : M A := fun _ st => (st, Threw e).

(** [await] of a call. *)
Definition call (a : action) : M value := fun w st =>
  let st' := (st.1, st.2 ++ [a]) in
  match answer w st.2 a with
  | Resolved v => (st', Returned v)
  | Rejected message => (st', Threw (Failure message))
  | Pending => (st', Hung)
  end.

Definition assign (f : session -> session) : M unit := fun _ st =>
  ((f st.1, st.2), Returned tt).

Definition read {A} (f : session -> A) : M A := fun _ st => (st, Returned (f st.1)).

(** [for await (const x of l) body] *)
Fixpoint for_each {A} (l : list A) (body : A -> M unit) : M unit :=
  match l with
  | [] => mret tt
  | x :: l' => body x;; for_each l' body
  end.

(** [withProgress(manifest, progress)]; [manifest] is [null] until
    [initialize] has stored it, and mapping over [null] raises. The
    callbacks write the binding of their own [createSteps] call. *)
Definition manifest_steps : M (list (Image * option Progress.callback)) :=
  m ← read manifest;
  p ← read progress;
  match m with
  | None => throw TypeError
  | Some images => mret (Progress.withProgress images p).2
  end.

(** String conversion in a template literal. *)
Definition to_string (v : value) : string :=
  match v with
  | VUndefined => "undefined"
  | VNull => "null"
  | VString s => s
  | VObject _ => "[object Object]"
  end.

(** [fileHandle.getFile()] *)
Definition getFile (fileHandle : value) : M value :=
  match fileHandle with
  | VObject h => call (GetFile h)
  | _ => throw TypeError
  end.

(** *** The stage bodies *)

(** The body of each loop takes a pair [[image, onProgress]]. *)
Definition downloadStep (step : Image * option Progress.callback) : M unit :=
  let '(image, onProgress) := step in
  assign (set_message ("Downloading " +:+ name image));;
  call (DownloadImage image);;
  mret tt.

Definition downloadImages : M unit :=
  steps ← manifest_steps;
  for_each steps downloadStep.

Definition unpackStep (step : Image * option Progress.callback) : M unit :=
  let '(image, onProgress) := step in
  assign (set_message ("Unpacking " +:+ name image));;
  call (UnpackImage image);;
  mret tt.

Definition unpackImages : M unit :=
  steps ← manifest_steps;
  for_each steps unpackStep.

Definition flashStep (step : Image * option Progress.callback) : M unit :=
  let '(image, onProgress) := step in
  fileHandle ← call (GetImage image);
  blob ← getFile fileHandle;
  (if sparse image then
     assign (set_message ("Erasing " +:+ name image));;
     call (RunCommand ("erase:" +:+ name image));;
     mret tt
   else mret tt);;
  assign (set_message ("Flashing " +:+ name image));;
  call (FlashBlob (name image) blob "other");;
  mret tt.

Definition flashDevice : M unit :=
  currentSlot ← call (GetVariable "current-slot");
  if negb (bool_decide (currentSlot = VString "a")
           || bool_decide (currentSlot = VString "b"))
  then throw (Failure ("Unknown current slot " +:+ to_string currentSlot))
  else
    steps ← manifest_steps;
    for_each steps flashStep;;
    let otherSlot := if bool_decide (currentSlot = VString "a") then "b" else "a" in
    assign (set_message ("Changing slot to " +:+ otherSlot));;
    call (RunCommand ("set_active:" +:+ otherSlot));;
    mret tt.

Definition eraseDevice : M unit :=
  assign (set_message "Erasing userdata");;
  call (RunCommand "erase:userdata");;
  assign (set_progress (Q2Qc (9 # 10)));;
  assign (set_message "Rebooting");;
  call (RunCommand "continue");;
  assign (set_progress 1);;
  assign (set_connected false).

(** *** The CONNECTING stage *)

(** [s.split(sep)] for a separator of one character; the result is
    never empty. *)
Fixpoint split (sep : Ascii.ascii) (s : string) : list string :=
  match s with
  | EmptyString => [EmptyString]
  | String a s' =>
      if Ascii.eqb a sep then EmptyString :: split sep s'
      else
        match split sep s' with
        | [] => [String a EmptyString]
        | x :: xs => String a x :: xs
        end
  end.

(** [s.trim()], for the white space of ASCII. *)
Definition is_space (a : Ascii.ascii) : bool :=
  let n := Ascii.nat_of_ascii a in
  ((9 <=? n)%nat && (n <=? 13)%nat) || (n =? 32)%nat.

Fixpoint trimStart (s : string) : string :=
  match s with
  | EmptyString => EmptyString
  | String a s' => if is_space a then trimStart s' else s
  end.

Fixpoint trimEnd (s : string) : string :=
  match s with
  | EmptyString => EmptyString
  | String a s' =>
      match trimEnd s' with
      | EmptyString => if is_space a then EmptyString else String a EmptyString
      | t => String a t
      end
  end.

Definition trim (s : string) : string := trimEnd (trimStart s).

(** The reducer over the lines of [getVariable('all')]: the last
    segment after a colon is the value, what comes before it the key. *)
Definition parseLine (obj : gmap string string) (line : string)
    : gmap string string :=
  let parts := split ":"%char line in
  let key := trim (String.concat ":" (removelast parts)) in
  <[key := trim (default EmptyString (last parts))]> obj.

Definition parseDeviceInfo (all : string) : gmap string string :=
  foldl parseLine ∅ (split "010"%char all).

(** [deviceInfo['serialno'] || 'unknown'] *)
Definition serial_of (deviceInfo : gmap string string) : string :=
  if falsy (deviceInfo !! "serialno") then "unknown"
  else default "unknown" (deviceInfo !! "serialno").

(** The callbacks run once [waitForConnect] has resolved. *)
Definition onConnected : M unit :=
  all ← call (GetVariable "all");
  match all with
  | VString all =>
      let deviceInfo := parseDeviceInfo all in
      let recognized := isRecognizedDevice deviceInfo in
      if negb recognized then assign (set_error UNRECOGNIZED_DEVICE)
      else
        assign (set_serial (Some (serial_of deviceInfo)));;
        assign (set_connected true);;
        assign (set_step DOWNLOADING)
  | _ => throw TypeError
  end.

(** The chain hanging on [waitForConnect()]. Both [waitForConnect] and
    [connect] have been called when it runs. *)
Definition waitChain (w : world) (s : session) : session * list action :=
  let called := [WaitForConnect; Connect] in
  match answer w [] WaitForConnect with
  | Resolved _ =>
      match onConnected w (s, called) with
      | ((s', tr), Threw _) => (set_error UNKNOWN s', tr)
      | ((s', tr), _) => (s', tr)
      end
  | Rejected _ => (set_connected false (set_error LOST_CONNECTION s), called)
  | Pending => (s, called)
  end.

(** The chain hanging on [connect()]. *)
Definition connectChain (w : world) (s : session) : session :=
  match answer w [WaitForConnect] Connect with
  | Rejected _ => set_step READY s
  | _ => s
  end.

Definition connecting (w : world) (s : session) : session * list action :=
  if connect_settles_last w then
    let '(s', tr) := waitChain w s in (connectChain w s', tr)
  else waitChain w (connectChain w s).

(** *** The effects *)

(** [body().then(...).catch(...)] *)
Definition settle {A} (r : (session * list action) * result A)
    (on_return : session -> session) (on_throw : exn -> session -> session)
    : session * list action :=
  match r with
  | ((s, tr), Returned _) => (on_return s, tr)
  | ((s, tr), Threw e) => (on_throw e s, tr)
  | ((s, tr), Hung) => (s, tr)
  end.

(** The handler of the unpack stage calls [err.startsWith]; on a value
    that is no string the call itself raises and nothing is assigned. *)
Definition unpackFailed (err : exn) (s : session) : session :=
  match err with
  | Failure message =>
      if JS.startsWith message "Checksum mismatch"
      then set_error CHECKSUM_MISMATCH s
      else set_error UNPACK_FAILED s
  | TypeError => s
  end.

(** The effect that runs the stages. The result holds the session once
    the body it started has come to rest, and the calls made. *)
Definition stageEffect (w : world) (s : session) : session * list action :=
  let s := set_message EmptyString (set_progress (-1) s) in
  if error_truthy (error s) then (s, [])
  else
    match step s with
    | CONNECTING => connecting w s
    | DOWNLOADING =>
        settle (downloadImages w (set_progress 0 s, []))
          (set_step UNPACKING) (fun _ => set_error DOWNLOAD_FAILED)
    | UNPACKING =>
        settle (unpackImages w (set_progress 0 s, []))
          (set_step FLASHING) unpackFailed
    | FLASHING =>
        settle (flashDevice w (set_progress 0 s, []))
          (set_step ERASING) (fun _ => set_error FLASH_FAILED)
    | ERASING =>
        settle (eraseDevice w (set_progress 0 s, []))
          (set_step DONE) (fun _ => set_error ERASE_FAILED)
    | READY | DONE => (s, [])
    end.

(** The effect that watches [error]. *)
Definition errorEffect (s : session) : session :=
  if negb (bool_decide (error s = NONE))
  then set_onRetry true (set_progress (-1) s)
  else s.

(** *** The session as a transition system *)

(** What can happen to a session: the effect that calls [initialize]
    runs, the user presses the button ([onContinue]), the stage effect
    runs. The stage effect runs again whenever the state it reads has
    changed; here it may run at any time. The body a handler starts is
    run to its end before the next event: one stage is in flight at a
    time. *)
Inductive event :=
  | Mount (env : init_env)
  | Continue (env : init_env)
  | Stage (w : world).

Definition handle (e : event) (s : session) : session :=
  match e with
  | Mount env => (initialize env s).1
  | Continue env => handleContinue env s
  | Stage w => (stageEffect w s).1
  end.

(** After a handler, the effect watching [error] runs again if [error]
    has changed. *)
Definition transition (e : event) (s : session) : session :=
  let s' := handle e s in
  if bool_decide (error s' = error s) then s' else errorEffect s'.

Inductive reachable : session -> Prop :=
  | reachable_initial imageWorker : reachable (initial imageWorker)
  | reachable_transition s e : reachable s -> reachable (transition e s).

(** *** Notions used in the statements *)

(** The session after a sequence of events. *)
Definition run_events (es : list event) (s : session) : session :=
  foldl (fun s e => transition e s) s es.

(** An initialized session holds a manifest with at least one image. *)
Definition manifest_loaded (s : session) : Prop :=
  isInitialized s = true -> exists images, manifest s = Some images /\ images <> [].

(** An asynchronous function keeps [R] when the session it leaves is
    related by [R] to the one it found, whatever the world answers. *)
Definition keeps (R : session -> session -> Prop) {A} (m : M A) : Prop :=
  forall w st, R st.1 (m w st).1.1.

(** The stages leave [manifest], [isInitialized] and [imageWorker] as
    they are. *)
Definition same_manifest (s s' : session) : Prop :=
  manifest s' = manifest s /\ isInitialized s' = isInitialized s
  /\ imageWorker s' = imageWorker s.

(** The stage bodies other than the connecting one leave [step] and
    [error] to the handlers that follow them. *)
Definition same_stage (s s' : session) : Prop :=
  step s' = step s /\ error s' = error s.

(** The erase, flash and slot commands a call list holds. *)
Definition device_command (a : action) : bool :=
  match a with
  | RunCommand _ | FlashBlob _ _ _ => true
  | _ => false
  end.

(** The calls the flashing loop is to make for one image: the handle,
    its file, the erase command if the image is sparse, the flash into
    the other slot. *)
Definition flash_calls (handle_of : Image -> nat) (blob_of : Image -> value)
    (image : Image) : list action :=
  [GetImage image; GetFile (handle_of image)]
  ++ (if sparse image then [RunCommand ("erase:" +:+ name image)] else [])
  ++ [FlashBlob (name image) (blob_of image) "other"].

(** The slot-activation commands of a call list. *)
Definition is_set_active (a : action) : bool :=
  match a with
  | RunCommand command => JS.startsWith command "set_active:"
  | _ => false
  end.

(** *** Notions used in the statements on the device variables *)

(** [c] occurs in [s]. *)
Fixpoint occurs (c : ascii) (s : string) : bool :=
  match s with
  | EmptyString => false
  | String a s' => Ascii.eqb a c || occurs c s'
  end.

(** Every character of [s] is white space. *)
Fixpoint blank (s : string) : bool :=
  match s with
  | EmptyString => true
  | String a s' => is_space a && blank s'
  end.

(** The first and the last character of [s]. *)
Definition first_char (s : string) : option ascii :=
  match s with
  | EmptyString => None
  | String a _ => Some a
  end.

Fixpoint last_char (s : string) : option ascii :=
  match s with
  | EmptyString => None
  | String a EmptyString => Some a
  | String _ s' => last_char s'
  end.

(** [s] neither starts nor ends with white space. *)
Definition trimmed (s : string) : bool :=
  match first_char s, last_char s with
  | Some a, Some b => negb (is_space a) && negb (is_space b)
  | _, _ => true
  end.

(** *** Notions used in the statements on the stages *)




(** The stage after [st] in the order of the stages. *)
Definition next_step (st : Step) : Step :=
  match st with
  | READY => CONNECTING
  | CONNECTING => DOWNLOADING
  | DOWNLOADING => UNPACKING
  | UNPACKING => FLASHING
  | FLASHING => ERASING
  | ERASING => DONE
  | DONE => DONE
  end.

(** The error kinds the body of a stage can set. *)
Definition stage_errors (st : Step) : list Error :=
  match st with
  | CONNECTING => [UNRECOGNIZED_DEVICE; LOST_CONNECTION; UNKNOWN]
  | DOWNLOADING => [DOWNLOAD_FAILED]
  | UNPACKING => [UNPACK_FAILED; CHECKSUM_MISMATCH]
  | FLASHING => [FLASH_FAILED]
  | ERASING => [ERASE_FAILED]
  | READY | DONE => []
  end.

(** What a run of the stage effect can do to [step] and [error]. *)
Definition one_move (s s' : session) : Prop :=
  (step s' = step s /\ error s' = error s)
  \/ (error s = NONE /\ error s' = NONE /\ step s' = next_step (step s)
      /\ step s <> READY /\ step s <> DONE)
  \/ (error s = NONE /\ step s' = step s /\ error s' ∈ stage_errors (step s))
  \/ (step s = CONNECTING /\ error s = NONE /\ step s' = READY
      /\ (error s' = NONE \/ error s' ∈ stage_errors CONNECTING)).

(** The three capabilities [initialize] tests. *)
Definition all_capabilities (env : init_env) : bool :=
  has_usb env && has_Worker env && has_Storage env.

(** Without an image worker no manifest is ever loaded. *)
Definition never_loaded (s : session) : Prop :=
  manifest s = None /\ isInitialized s = false.

End Fastboot.

(** ** The flashing view *)

Module Flash.

Import Fastboot.

(** An entry of the tables [steps] and [errors]: each property may be
    absent. An icon is known by the name it is imported under. *)
Record entry := mkEntry {
  status : option string;
  description : option string;
  bgColor : option string;
  icon : option string;
  iconStyle : option string;
}.

(** The table [steps]. *)
Definition steps (step : Step) : entry :=
  match step with
  | READY =>
      mkEntry (Some "Ready")
      (Some "Tap the button above to begin")
      (Some "bg-[#51ff00]") (Some "bolt") (Some EmptyString)
  | CONNECTING =>
      mkEntry (Some "Waiting for connection")
      (Some "Follow the instructions to connect your device to your computer")
      (Some "bg-yellow-500") (Some "cable") None
  | DOWNLOADING =>
      mkEntry (Some "Downloading...")
      None
      (Some "bg-blue-500") (Some "cloudDownload") None
  | UNPACKING =>
      mkEntry (Some "Unpacking...")
      None
      (Some "bg-blue-500") (Some "cloudDownload") None
  | FLASHING =>
      mkEntry (Some "Flashing device...")
      (Some "Do not unplug your device until the process is complete.")
      (Some "bg-lime-400") (Some "systemUpdate") None
  | ERASING =>
      mkEntry (Some "Erasing device...")
      None
      (Some "bg-lime-400") (Some "systemUpdate") None
  | DONE =>
      mkEntry (Some "Done")
      (Some "Your device has been updated successfully. You can now unplug the USB cable from your computer. To complete the system reset, follow the instructions on your device.")
      (Some "bg-green-500") (Some "done") None
  end.

(** [errors[error]]; the table has no entry for [NONE] nor for
    [UNPACK_FAILED]. *)
(** The table [errors]; it has no entry for [UNPACK_FAILED]. *)
Definition errors (error : Error) : option entry :=
  match error with
  | UNKNOWN =>
      Some (mkEntry (Some "Unknown error")
      (Some "An unknown error has occurred. Restart your browser and try again.")
      (Some "bg-red-500") (Some "exclamation") None)
  | UNRECOGNIZED_DEVICE =>
      Some (mkEntry (Some "Unrecognized device")
      (Some "The device connected to your computer is not supported.")
      (Some "bg-yellow-500") (Some "deviceQuestion") None)
  | LOST_CONNECTION =>
      Some (mkEntry (Some "Lost connection")
      (Some "The connection to your device was lost. Check that your cables are connected properly and try again.")
      None (Some "cable") None)
  | DOWNLOAD_FAILED =>
      Some (mkEntry (Some "Download failed")
      (Some "The system image could not be downloaded. Check your internet connection and try again.")
      None (Some "cloudError") None)
  | CHECKSUM_MISMATCH =>
      Some (mkEntry (Some "Download mismatch")
      (Some "The system image downloaded does not match the expected checksum. Try again.")
      None (Some "frameAlert") None)
  | FLASH_FAILED =>
      Some (mkEntry (Some "Flash failed")
      (Some "The system image could not be flashed to your device. Try using a different cable, USB port, or computer. If the problem persists, join the #hw-three-3x channel on Discord for help.")
      None (Some "deviceExclamation") None)
  | ERASE_FAILED =>
      Some (mkEntry (Some "Erase failed")
      (Some "The device could not be erased. Try using a different cable, USB port, or computer. If the problem persists, join the #hw-three-3x channel on Discord for help.")
      None (Some "deviceExclamation") None)
  | REQUIREMENTS_NOT_MET =>
      Some (mkEntry (Some "Requirements not met")
      (Some "Your system does not meet the requirements to flash your device. Make sure to use a browser which supports WebUSB and is up to date.")
      None None None)
  | NONE | UNPACK_FAILED => None
  end.

(** [Object.assign(target, source)]: the properties the source has
    replace those of the target; an [undefined] source is skipped. *)
Definition assign_property (target source : option string) : option string :=
  match source with
  | Some v => Some v
  | None => target
  end.

Definition Object_assign (target : entry) (source : option entry) : entry :=
  match source with
  | None => target
  | Some source =>
      mkEntry (assign_property (status target) (status source))
        (assign_property (description target) (description source))
        (assign_property (bgColor target) (bgColor source))
        (assign_property (icon target) (icon source))
        (assign_property (iconStyle target) (iconStyle source))
  end.

(** [uiState], with the default of [iconStyle] filled in as the
    destructuring does. *)
Definition uiState (step : Step) (error : Error) : entry :=
  let uiState := steps step in
  let uiState :=
    if error_truthy error
    then Object_assign (Object_assign uiState (errors UNKNOWN)) (errors error)
    else uiState in
  mkEntry (status uiState) (description uiState) (bgColor uiState) (icon uiState)
    (Some (default "invert" (iconStyle uiState))).




End Flash.

(** ** The image worker module *)

Module ImageWorker.

(** The module variables. A worker is known by its number in the order
    of construction; [constructed] counts the [new Worker] calls. *)
Record module_state := mkModule {
  workerInstance : option nat;
  isInitialized : bool;
  constructed : nat;
}.

Definition start : module_state := mkModule None false 0.

(** [has_window] tells whether [window] is defined. *)
Definition getWorkerInstance (has_window : bool) (m : module_state)
    : module_state * option nat :=
  if negb has_window then (m, None)
  else
    let m :=
      if negb (isInitialized m) then
        let worker := constructed m in
        mkModule (Some worker) true (S (constructed m))
      else m in
    (m, workerInstance m).

(** The results of a sequence of calls, and the state they leave. *)
Fixpoint calls (windows : list bool) (m : module_state)
    : module_state * list (option nat) :=
  match windows with
  | [] => (m, [])
  | has_window :: windows' =>
      let '(m1, r) := getWorkerInstance has_window m in
      let '(m2, rs) := calls windows' m1 in
      (m2, r :: rs)
  end.

(** No worker has been built, or the first one has and is kept. *)
Definition at_most_one (m : module_state) : Prop :=
  m = start \/ m = mkModule (Some 0%nat) true 1.

End ImageWorker.

(** ** A sample session *)

Module Scenario.

Import Manifest Fastboot.

Definition boot : Image := mkImage "boot" (Some (Q2Qc 100)) false "c1".

Definition system : Image := mkImage "system" (Some (Q2Qc 200)) true "c2".

(** A browser with every capability, and one without WebUSB. *)
Definition capable (l : load) : init_env := mkInitEnv true true true l.

Definition no_usb : init_env := mkInitEnv false true true LoadThrows.

(** What a device of the expected family answers to
    [getVariable('all')], one variable a line. *)
Definition newline : string := String "010"%char EmptyString.

Definition all_variables : string :=
  String.concat newline [
    "kernel:uefi"; "max-download-size: 104857600"; "slot-count:2";
    "partition-type:boot_a:raw"; "partition-type:boot_b:raw";
    "partition-type:xbl_config_a:raw"; "serialno: abc123"
  ].

Definition handle_of (image : Image) : nat := String.length (name image).

Definition blob_of (image : Image) : value := VObject (100 + handle_of image).

(** A device and a worker that answer every call; the device is in
    slot [slot]. *)
Definition obliging (slot : string) : world :=
  mkWorld
    (fun _ a =>
       match a with
       | GetVariable name =>
           if String.eqb name "current-slot" then Resolved (VString slot)
           else Resolved (VString all_variables)
       | GetImage image => Resolved (VObject (handle_of image))
       | GetFile h => Resolved (VObject (100 + h))
       | _ => Resolved VUndefined
       end)
    true.


(** The session from the press of the button to the flashing stage. *)
Definition at_connecting : session :=
  transition (Continue (capable (Loaded [boot; system]))) (initial true).

Definition at_downloading : session := transition (Stage (obliging "a")) at_connecting.

Definition at_unpacking : session := transition (Stage (obliging "a")) at_downloading.

Definition at_flashing : session := transition (Stage (obliging "a")) at_unpacking.

(** The variables of a device of the expected family, and the same
    without a serial number. *)
Definition no_serial : gmap string string :=
  list_to_map [
    ("kernel", "uefi"); ("max-download-size", "104857600"); ("slot-count", "2");
    ("partition-type:boot_a", "raw"); ("partition-type:boot_b", "raw")
  ].

Definition comma_three : gmap string string :=
  <["serialno" := "abc123"]> no_serial.



(** The user closes the device chooser: [connect] is rejected and no
    device ever connects. *)
Definition dismissed : world :=
  mkWorld
    (fun _ a =>
       match a with
       | WaitForConnect => Pending
       | Connect => Rejected "No device selected"
       | _ => Resolved VUndefined
       end)
    true.

Definition at_erasing : session := transition (Stage (obliging "a")) at_flashing.

(** The download stage of a page that has no image worker. *)
Definition without_worker : session :=
  transition (Stage (obliging "a"))
    (transition (Continue (capable (Loaded [boot; system]))) (initial false)).

End Scenario.

(** * Properties *)

(** ** The progress aggregator *)

Section ProgressFacts.
Import Progress.


Lemma strict_neq_false a b : JS.strict_neq a b = false <-> a = b.
Proof. unfold JS.strict_neq. rewrite negb_false_iff, bool_decide_eq_true. done. Qed.

Lemma reduce_from_total k ws acc :
  JS.reduce_from (fun total weight (_ : nat) => total + weight) k ws acc
  = acc + sum_weights ws.
Proof.
  revert k acc. induction ws as [|w ws IH]; intros k acc; simpl.
  - ring.
  - rewrite IH. ring.
Qed.




Lemma createSteps_ok steps p0 :
  closure_ok (weights_of steps) (createSteps steps p0).1.
Proof.
  destruct steps; repeat split; simpl; unfold JS.reduce;
    rewrite ?reduce_from_total, ?length_replicate; try ring; done.
Qed.

Lemma createSteps_callbacks steps p0 i :
  (createSteps steps p0).2 !! i
  = if decide (i < length (weights_of steps))%nat then Some (step_callback i) else None.
Proof.
  destruct steps; simpl; rewrite list_lookup_imap; case_decide as Hi.
  - apply lookup_lt_is_Some_2 in Hi as [w ->]. done.
  - apply not_lt, lookup_ge_None_2 in Hi. by rewrite Hi.
  - apply lookup_lt_is_Some_2 in Hi as [w ->]. done.
  - apply not_lt, lookup_ge_None_2 in Hi. by rewrite Hi.
Qed.

Lemma step_callback_ok ws idx v c :
  closure_ok ws c -> closure_ok ws (step_callback idx v c).
Proof.
  intros (Hw & Ht & Hl). unfold step_callback.
  destruct (JS.strict_neq _ _); [|done].
  repeat split; simpl; rewrite ?length_insert; done.
Qed.

Lemma invoke_ok steps p0 c u :
  closure_ok (weights_of steps) c ->
  closure_ok (weights_of steps) (invoke (createSteps steps p0).2 c u).
Proof.
  intros Hc. unfold invoke. rewrite createSteps_callbacks.
  case_decide; [by apply step_callback_ok | done].
Qed.

Lemma run_snoc cbs c us u : run cbs c (us ++ [u]) = invoke cbs (run cbs c us) u.
Proof. unfold run. by rewrite foldl_app. Qed.

Lemma run_ok steps p0 us :
  closure_ok (weights_of steps)
    (run (createSteps steps p0).2 (createSteps steps p0).1 us).
Proof.
  induction us as [|u us IH] using rev_ind.
  - apply createSteps_ok.
  - rewrite run_snoc. by apply invoke_ok.
Qed.

Lemma last_reported_snoc us u i :
  last_reported (us ++ [u]) i = if decide (u.1 = i) then u.2 else last_reported us i.
Proof. unfold last_reported. by rewrite foldl_app. Qed.

Lemma createSteps_parts steps p0 :
  progressParts (createSteps steps p0).1 = replicate (length (weights_of steps)) 0.
Proof. by destruct steps. Qed.

(** [progressParts] holds, for every task, the last value reported. *)
Lemma run_parts steps p0 us j :
  (j < length (weights_of steps))%nat ->
  progressParts (run (createSteps steps p0).2 (createSteps steps p0).1 us) !! j
  = Some (last_reported us j).
Proof.
  intros Hj. induction us as [|u us IH] using rev_ind.
  - unfold run. cbn [foldl]. rewrite createSteps_parts. by apply lookup_replicate_2.
  - rewrite run_snoc, last_reported_snoc.
    pose proof (run_ok steps p0 us) as (_ & _ & Hlen).
    set (c := run _ _ us) in *.
    unfold invoke. rewrite createSteps_callbacks.
    destruct u as [i v]; simpl. case_decide as Hi.
    + unfold step_callback.
      destruct (JS.strict_neq _ _) eqn:Hneq; simpl.
      * case_decide as Hij.
        -- subst. apply list_lookup_insert_eq. lia.
        -- by rewrite list_lookup_insert_ne.
      * apply strict_neq_false in Hneq. case_decide as Hij; [|done].
        rewrite <- Hij in IH. unfold part in Hneq. rewrite IH in Hneq.
        simpl in Hneq. rewrite <- Hij, IH. by f_equal.
    + case_decide; [lia | done].
Qed.





(** C9. A callback invoked with the value last recorded for its task
    changes nothing: [updateProgress] is not called and the output is
    as before; invoking a callback twice with one value is the same as
    invoking it once. *)
Theorem repeated_update_noop steps p0 us i cb v :
  (createSteps steps p0).2 !! i = Some cb ->
  let c := run (createSteps steps p0).2 (createSteps steps p0).1 us in
  (last_reported us i = v ->
     cb v c = c /\ recomputed (cb v c) = recomputed c
     /\ progress (cb v c) = progress c)
  /\ cb v (cb v c) = cb v c.
Proof.
  intros Hcb c. rewrite createSteps_callbacks in Hcb.
  case_decide as Hi; [|done]. injection Hcb as <-.
  pose proof (run_parts steps p0 us i Hi) as Hpi. fold c in Hpi.
  pose proof (run_ok steps p0 us) as (_ & _ & Hlen). fold c in Hlen.
  assert (Hsame : forall c0, part (progressParts c0) i = v -> step_callback i v c0 = c0).
  { intros c0 H0. unfold step_callback.
    apply strict_neq_false in H0. by rewrite H0. }
  split.
  - intros He. rewrite Hsame; [done|]. unfold part. by rewrite Hpi.
  - apply Hsame. unfold step_callback at 1.
    destruct (JS.strict_neq _ _) eqn:Hneq.
    + simpl. unfold part. rewrite list_lookup_insert_eq by lia. done.
    + by apply strict_neq_false in Hneq.
Qed.

Lemma stepWeight_fallback {T} `{StepLike T} (step : T) :
  stepWeight step = fallback_weight step.
Proof.
  unfold stepWeight, fallback_weight, JS.or_num, JS.or, JS.truthy.
  destruct (as_number step); [done|].
  destruct (size_of step) as [s|], (length_of step) as [l|]; simpl;
    repeat (case_bool_decide || case_decide; simpl); congruence.
Qed.

(** C10. [withProgress] weighs each step by the step itself when it is
    a number, else by its [size], else by its [length], else by 1, the
    fallbacks being taken when a property is absent or zero; an image
    whose size is 0 or missing weighs 1, not 0. *)
Theorem withProgress_weights {T} `{StepLike T} (steps : list T) (p0 : Qc) :
  stepWeights (withProgress steps p0).1 = map stepWeight steps
  /\ totalSize (withProgress steps p0).1 = sum_weights (map stepWeight steps)
  /\ (forall step : T, stepWeight step = fallback_weight step)
  /\ (forall img : Manifest.Image,
        Manifest.size img = None \/ Manifest.size img = Some 0 ->
        stepWeight img = 1 /\ stepWeight img <> 0).
Proof.
  split; [|split; [|split]].
  - done.
  - simpl. unfold JS.reduce. rewrite reduce_from_total. ring.
  - apply stepWeight_fallback.
  - intros img [Hs|Hs]; unfold stepWeight; simpl; rewrite Hs; simpl; done.
Qed.




Lemma repeated_update_noop_witness :
  let created := createSteps (StepCount 2) 0 in
  let c := run created.2 created.1 [(0%nat, Q2Qc (1 # 2))] in
  created.2 !! 0%nat = Some (step_callback 0)
  /\ step_callback 0 (Q2Qc (1 # 2)) c = c.
Proof.
  cbv zeta. split; [reflexivity|].
  destruct (repeated_update_noop (StepCount 2) 0 [(0%nat, Q2Qc (1 # 2))] 0
              (step_callback 0) (Q2Qc (1 # 2)) eq_refl) as [Hnoop _].
  apply Hnoop. reflexivity.
Defined.

Lemma withProgress_weights_witness :
  let img := Manifest.mkImage "boot" (Some 0) false "00" in
  (Manifest.size img = None \/ Manifest.size img = Some 0)
  /\ stepWeight img = 1.
Proof.
  cbv zeta. split; [right; reflexivity|].
  destruct (withProgress_weights (@nil Manifest.Image) 0) as (_ & _ & _ & Hz).
  apply Hz. right; reflexivity.
Defined.

End ProgressFacts.

(** ** Strings *)

Section StringFacts.

Lemma prefix_app p t : String.prefix p (p +:+ t) = true.
Proof.
  induction p as [|a p IH]; simpl.
  - by destruct t.
  - destruct (Ascii.ascii_dec a a); [done | congruence].
Qed.

Lemma prefix_inv p s : String.prefix p s = true -> exists t, s = p +:+ t.
Proof.
  revert s. induction p as [|a p IH]; intros s Hs.
  - by exists s.
  - destruct s as [|b s]; simpl in Hs; [done|].
    destruct (Ascii.ascii_dec a b) as [->|]; [|done].
    destruct (IH _ Hs) as [t ->]. by exists t.
Qed.

Lemma substring_all s : String.substring 0 (String.length s) s = s.
Proof. induction s as [|a s IH]; simpl; [done | by rewrite IH]. Qed.

Lemma substring_skip p t n :
  String.substring (String.length p) n (p +:+ t) = String.substring 0 n t.
Proof. induction p as [|a p IH]; simpl; done. Qed.

Lemma substring_take base t :
  String.substring 0 (String.length base) (base +:+ t) = base.
Proof.
  induction base as [|a base IH]; simpl.
  - by destruct t.
  - by rewrite IH.
Qed.

Lemma string_length_app (s t : string) :
  String.length (s +:+ t) = (String.length s + String.length t)%nat.
Proof. induction s as [|a s IH]; simpl; [done | by rewrite IH]. Qed.

Lemma substring_from_app p t : JS.substring_from (p +:+ t) (String.length p) = t.
Proof.
  unfold JS.substring_from. rewrite substring_skip, string_length_app.
  replace (String.length p + String.length t - String.length p)%nat
    with (String.length t) by lia.
  apply substring_all.
Qed.

(** Every string of length at least [k] splits before its last [k]
    characters. *)
Lemma string_split_at (s : string) (n : nat) :
  (n <= String.length s)%nat ->
  exists base t, s = base +:+ t /\ String.length base = n.
Proof.
  revert s. induction n as [|n IH]; intros s Hn.
  - by exists EmptyString, s.
  - destruct s as [|a s]; simpl in Hn; [lia|].
    destruct (IH s) as (base & t & -> & Hb); [lia|].
    exists (String a base), t. simpl. by rewrite Hb.
Qed.

Lemma endsWith_app base suf : JS.endsWith (base +:+ suf) suf = true.
Proof.
  unfold JS.endsWith. rewrite string_length_app.
  rewrite (proj2 (Nat.leb_le _ _)) by lia.
  replace (String.length base + String.length suf - String.length suf)%nat
    with (String.length base) by lia.
  rewrite substring_skip, substring_all. apply String.eqb_refl.
Qed.

Lemma endsWith_inv s suf :
  JS.endsWith s suf = true -> exists base, s = base +:+ suf.
Proof.
  unfold JS.endsWith. destruct (Nat.leb_spec (String.length suf) (String.length s)) as [Hle|]; [|done].
  intros Heq. apply String.eqb_eq in Heq.
  destruct (string_split_at s (String.length s - String.length suf)) as (base & t & -> & Hb); [lia|].
  exists base. f_equal.
  rewrite <- Hb, substring_skip in Heq. rewrite string_length_app in Hb, Hle.
  assert (String.length t = String.length suf) as Ht by lia.
  rewrite <- Ht, substring_all in Heq. done.
Qed.

Lemma app_suffix_inj (b1 b2 s1 s2 : string) :
  String.length s1 = String.length s2 ->
  b1 +:+ s1 = b2 +:+ s2 -> b1 = b2 /\ s1 = s2.
Proof.
  intros Hlen. revert b2. induction b1 as [|a b1 IH]; intros b2 Heq.
  - destruct b2 as [|c b2]; [done|]. simpl in Heq.
    apply (f_equal String.length) in Heq. simpl in Heq.
    rewrite !string_length_app in Heq. simpl in Heq. lia.
  - destruct b2 as [|c b2]; simpl in Heq.
    + apply (f_equal String.length) in Heq. simpl in Heq.
      rewrite !string_length_app in Heq. simpl in Heq. lia.
    + injection Heq as -> Heq. destruct (IH _ Heq) as [-> ->]. done.
Qed.

Lemma includes_elem_of (l : list string) x : JS.includes l x = true <-> x ∈ l.
Proof.
  unfold JS.includes. rewrite existsb_exists. split.
  - intros (y & Hy & Heq). apply String.eqb_eq in Heq. subst.
    by apply list_elem_of_In.
  - intros Hx. exists x. split; [by apply list_elem_of_In | apply String.eqb_refl].
Qed.

End StringFacts.

Section RecognizerFacts.
Import Fastboot.

Lemma partition_of_key_strip name :
  strip_slot name (partition_of_key ("partition-type:" +:+ name)).
Proof.
  unfold partition_of_key. rewrite substring_from_app.
  destruct (JS.endsWith name "_a") eqn:Ha; simpl.
  - apply endsWith_inv in Ha as [base ->].
    unfold JS.substring. rewrite string_length_app. simpl.
    replace (String.length base + 2 - 2 - 0)%nat with (String.length base) by lia.
    rewrite substring_take. constructor.
  - destruct (JS.endsWith name "_b") eqn:Hb.
    + apply endsWith_inv in Hb as [base ->].
      unfold JS.substring. rewrite string_length_app. simpl.
      replace (String.length base + 2 - 2 - 0)%nat with (String.length base) by lia.
      rewrite substring_take. constructor.
    + apply strip_slot_none. intros base. split; intros ->.
      * by rewrite endsWith_app in Ha.
      * by rewrite endsWith_app in Hb.
Qed.

Lemma strip_slot_fun name p q : strip_slot name p -> strip_slot name q -> p = q.
Proof.
  intros Hp Hq.
  destruct Hp as [bp|bp|np Hnp]; inversion Hq as [bq Hbq|bq Hbq|nq Hnq Hbq];
    subst; try done;
    try (apply app_suffix_inj in Hbq as [? ?]; [done | done]);
    try (by destruct (Hnq bp)); try (by destruct (Hnp q)).
Qed.

Lemma Object_keys_elem (deviceInfo : gmap string string) key :
  key ∈ Object_keys deviceInfo <-> is_Some (deviceInfo !! key).
Proof.
  unfold Object_keys. rewrite list_elem_of_fmap. split.
  - intros ([k v] & -> & Hkv). apply elem_of_map_to_list in Hkv. by exists v.
  - intros [v Hv]. exists (key, v). split; [done|]. by apply elem_of_map_to_list.
Qed.

Lemma collect_partitions_elem keys acc x :
  x ∈ foldl collect_partition acc keys <->
  x ∈ acc \/ exists key, key ∈ keys
             /\ JS.startsWith key "partition-type:" = true
             /\ x = partition_of_key key.
Proof.
  revert acc. induction keys as [|k keys IH]; intros acc; simpl.
  - split; [by left|]. intros [H|(key & Hk & _)]; [done|]. by apply elem_of_nil in Hk.
  - rewrite IH. unfold collect_partition.
    destruct (JS.startsWith k "partition-type:") eqn:Hk; simpl.
    + destruct (JS.includes acc (partition_of_key k)) eqn:Hin.
      * apply includes_elem_of in Hin. split.
        -- intros [H|(key & Hkey & Hs & ->)]; [by left|].
           right. exists key. split; [apply elem_of_cons; by right|done].
        -- intros [H|(key & Hkey & Hs & ->)]; [by left|].
           apply elem_of_cons in Hkey as [->|Hkey]; [by left|].
           right. by exists key.
      * split.
        -- intros [H|(key & Hkey & Hs & ->)].
           ++ apply elem_of_app in H as [H|H]; [by left|].
              apply list_elem_of_singleton in H as ->.
              right. exists k. split; [apply elem_of_cons; by left|done].
           ++ right. exists key. split; [apply elem_of_cons; by right|done].
        -- intros [H|(key & Hkey & Hs & ->)].
           ++ left. apply elem_of_app. by left.
           ++ apply elem_of_cons in Hkey as [->|Hkey].
              ** left. apply elem_of_app. right. by apply list_elem_of_singleton.
              ** right. by exists key.
    + split.
      * intros [H|(key & Hkey & Hs & ->)]; [by left|].
        right. exists key. split; [apply elem_of_cons; by right|done].
      * intros [H|(key & Hkey & Hs & ->)]; [by left|].
        apply elem_of_cons in Hkey as [->|Hkey]; [congruence|].
        right. by exists key.
Qed.

Lemma collect_partitions_NoDup keys acc :
  NoDup acc -> NoDup (foldl collect_partition acc keys).
Proof.
  revert acc. induction keys as [|k keys IH]; intros acc Hacc; simpl; [done|].
  apply IH. unfold collect_partition.
  destruct (JS.startsWith k "partition-type:"); simpl; [|done].
  destruct (JS.includes acc (partition_of_key k)) eqn:Hin; [done|].
  apply NoDup_app. split; [done|]. split; [|apply NoDup_singleton].
  intros x Hx Hx'. apply list_elem_of_singleton in Hx' as ->.
  apply includes_elem_of in Hx. congruence.
Qed.

(** The array built by the loop holds exactly the partition names. *)
Lemma partitions_spec (deviceInfo : gmap string string) p :
  p ∈ foldl collect_partition [] (Object_keys deviceInfo)
  <-> partition_name deviceInfo p.
Proof.
  rewrite collect_partitions_elem. split.
  - intros [H|(key & Hkey & Hs & ->)]; [by apply elem_of_nil in H|].
    apply prefix_inv in Hs as [name ->]. exists name. split.
    + by apply Object_keys_elem.
    + apply partition_of_key_strip.
  - intros (name & Hkey & Hstrip). right.
    exists ("partition-type:" +:+ name). split; [by apply Object_keys_elem|].
    split; [apply prefix_app|].
    eapply strip_slot_fun; [done | apply partition_of_key_strip].
Qed.

Lemma differs_false v s : differs v s = false <-> v = Some s.
Proof. unfold differs. by rewrite negb_false_iff, bool_decide_eq_true. Qed.

Lemma forallb_expected (partitions : list string) :
  forallb (fun partition => JS.includes expectedPartitions partition) partitions = true
  <-> forall p, p ∈ partitions -> p ∈ expectedPartitions.
Proof.
  rewrite forallb_forall. split.
  - intros H p Hp. apply includes_elem_of, H. by apply list_elem_of_In.
  - intros H p Hp. apply includes_elem_of, H. by apply list_elem_of_In.
Qed.

(** C2, as amended. The array the recogniser builds holds, without
    repetition, exactly the partition names of the device. A device
    whose partition names all belong to the expected list is accepted
    provided its [kernel], [max-download-size] and [slot-count] are the
    expected ones and its [serialno] is not empty; a device with a
    partition name outside the expected list is rejected. *)
Theorem recognizer_partition_check (deviceInfo : gmap string string) :
  let partitions := foldl collect_partition [] (Object_keys deviceInfo) in
  (NoDup partitions /\ forall p, p ∈ partitions <-> partition_name deviceInfo p)
  /\ (deviceInfo !! "kernel" = Some "uefi" ->
      deviceInfo !! "max-download-size" = Some "104857600" ->
      deviceInfo !! "slot-count" = Some "2" ->
      (exists serialno, deviceInfo !! "serialno" = Some serialno /\ serialno <> EmptyString) ->
      (forall p, partition_name deviceInfo p -> p ∈ expectedPartitions) ->
      isRecognizedDevice deviceInfo = true)
  /\ (forall p, partition_name deviceInfo p -> p ∉ expectedPartitions ->
      isRecognizedDevice deviceInfo = false).
Proof.
  intros partitions. split; [|split].
  - split; [apply collect_partitions_NoDup, NoDup_nil_2 | apply partitions_spec].
  - intros Hk Hm Hs (serialno & Hsn & Hne) Hsub. unfold isRecognizedDevice.
    rewrite (proj2 (differs_false _ _) Hk), (proj2 (differs_false _ _) Hm),
      (proj2 (differs_false _ _) Hs). simpl.
    rewrite (proj2 (forallb_expected _)); simpl.
    + rewrite Hsn. simpl. destruct (String.eqb_spec serialno EmptyString); done.
    + intros p Hp. by apply Hsub, partitions_spec.
  - intros p Hp Hnot. unfold isRecognizedDevice.
    destruct (_ || _ || _); [done|].
    destruct (forallb _ _) eqn:Hall; [|done]. exfalso. apply Hnot.
    apply (proj1 (forallb_expected _) Hall). by apply partitions_spec.
Qed.

Lemma no_serial_partitions :
  foldl collect_partition [] (Object_keys Scenario.no_serial) = ["boot"].
Proof. vm_compute. reflexivity. Qed.

Lemma comma_three_partitions :
  foldl collect_partition [] (Object_keys Scenario.comma_three) = ["boot"].
Proof. vm_compute. reflexivity. Qed.

Lemma boot_expected : "boot" ∈ expectedPartitions.
Proof. apply includes_elem_of. reflexivity. Qed.

(** C2 as stated fails: the partition names of this device, [boot]
    alone, are a strict subset of the expected list, and the device is
    rejected, for want of a serial number. *)
Lemma recognizer_rejects_subset_device :
  (forall p, partition_name Scenario.no_serial p -> p ∈ expectedPartitions)
  /\ (exists q, q ∈ expectedPartitions /\ ~ partition_name Scenario.no_serial q)
  /\ isRecognizedDevice Scenario.no_serial = false.
Proof.
  split; [|split].
  - intros p Hp. apply partitions_spec in Hp. rewrite no_serial_partitions in Hp.
    apply list_elem_of_singleton in Hp as ->. apply boot_expected.
  - exists "xbl". split.
    + apply includes_elem_of. reflexivity.
    + intros Hx. apply partitions_spec in Hx. rewrite no_serial_partitions in Hx.
      by apply list_elem_of_singleton in Hx.
  - vm_compute. reflexivity.
Qed.

Lemma recognizer_partition_check_witness :
  Scenario.comma_three !! "kernel" = Some "uefi"
  /\ isRecognizedDevice Scenario.comma_three = true.
Proof.
  split; [vm_compute; reflexivity|].
  destruct (recognizer_partition_check Scenario.comma_three) as (_ & Haccept & _).
  apply Haccept.
  - vm_compute. reflexivity.
  - vm_compute. reflexivity.
  - vm_compute. reflexivity.
  - exists "abc123". split; [vm_compute; reflexivity | discriminate].
  - intros p Hp. apply partitions_spec in Hp.
    rewrite comma_three_partitions in Hp.
    apply list_elem_of_singleton in Hp as ->. apply boot_expected.
Defined.

End RecognizerFacts.

(** ** The session *)

Section SessionFacts.
Import Manifest Fastboot.

Lemma error_truthy_true e : error_truthy e = true <-> e <> NONE.
Proof. destruct e; simpl; split; (done || congruence). Qed.

Lemma error_truthy_NONE : error_truthy NONE = false.
Proof. done. Qed.

(** [initialize] writes [error], [manifest], [isInitialized] and
    [initializePromise] only. *)
Lemma initialize_frame env s :
  let s' := (initialize env s).1 in
  step s' = step s /\ progress s' = progress s /\ onRetry s' = onRetry s
  /\ message s' = message s /\ imageWorker s' = imageWorker s.
Proof.
  unfold initialize.
  destruct (isInitialized s), (initializePromise s), (has_usb env),
    (has_Worker env), (has_Storage env), (imageWorker s) eqn:Hw,
    (loaded env) as [| |images]; simpl; try done;
    destruct (length images =? 0)%nat; simpl; done.
Qed.





Lemma stageEffect_error w s :
  error s <> NONE ->
  stageEffect w s = (set_message EmptyString (set_progress (-1) s), []).
Proof.
  intros Hs. unfold stageEffect. simpl.
  by rewrite (proj2 (error_truthy_true _) Hs).
Qed.

Lemma errorEffect_frame s :
  step (errorEffect s) = step s /\ error (errorEffect s) = error s
  /\ isInitialized (errorEffect s) = isInitialized s
  /\ manifest (errorEffect s) = manifest s.
Proof. unfold errorEffect. destruct (negb _); done. Qed.


Lemma transition_frame e s :
  let s' := handle e s in
  step (transition e s) = step s' /\ error (transition e s) = error s'
  /\ isInitialized (transition e s) = isInitialized s'
  /\ manifest (transition e s) = manifest s'.
Proof.
  unfold transition. simpl. destruct (bool_decide _); [done|].
  apply errorEffect_frame.
Qed.





Lemma initialize_manifest_loaded env s :
  manifest_loaded s -> manifest_loaded (initialize env s).1.
Proof.
  unfold manifest_loaded, initialize. intros Hs.
  destruct (isInitialized s) eqn:Hi; [by intros _; apply Hs|].
  destruct (initializePromise s), (has_usb env), (has_Worker env),
    (has_Storage env), (imageWorker s), (loaded env) as [| |images];
    simpl; try congruence.
  destruct images as [|image images]; simpl; [congruence|].
  intros _. by exists (image :: images).
Qed.

Lemma set_message_frame m s :
  step (set_message m s) = step s /\ error (set_message m s) = error s
  /\ manifest (set_message m s) = manifest s
  /\ isInitialized (set_message m s) = isInitialized s.
Proof. done. Qed.


(** *** Reasoning about asynchronous functions *)

Lemma bind_returned {A B} (m : M A) (f : A -> M B) w st st' a :
  m w st = (st', Returned a) -> (m ≫= f) w st = f a w st'.
Proof. unfold mbind, M_bind. by intros ->. Qed.


Lemma call_resolved w s tr a v :
  answer w tr a = Resolved v -> call a w (s, tr) = ((s, tr ++ [a]), Returned v).
Proof. unfold call. simpl. by intros ->. Qed.


Section Frame.

(** A relation between the session before and after, kept by every
    step of an asynchronous function. *)
Variable R : session -> session -> Prop.
Hypothesis R_refl : forall s, R s s.
Hypothesis R_trans : forall s1 s2 s3, R s1 s2 -> R s2 s3 -> R s1 s3.

Lemma keeps_ret {A} (a : A) : keeps R (mret a).
Proof. intros w st. apply R_refl. Qed.

Lemma keeps_throw {A} e : keeps R (@throw A e).
Proof. intros w st. apply R_refl. Qed.

Lemma keeps_call a : keeps R (call a).
Proof. intros w st. unfold call. destruct (answer w st.2 a); apply R_refl. Qed.

Lemma keeps_read {A} (f : session -> A) : keeps R (read f).
Proof. intros w st. apply R_refl. Qed.

Lemma keeps_assign f : (forall s, R s (f s)) -> keeps R (assign f).
Proof. intros Hf w st. apply Hf. Qed.

Lemma keeps_bind {A B} (m : M A) (f : A -> M B) :
  keeps R m -> (forall a, keeps R (f a)) -> keeps R (m ≫= f).
Proof.
  intros Hm Hf w st. unfold mbind, M_bind.
  specialize (Hm w st). destruct (m w st) as [st' [a|e|]]; simpl in *; try done.
  eapply R_trans; [exact Hm | apply Hf].
Qed.

Lemma keeps_for_each {A} (l : list A) (body : A -> M unit) :
  (forall x, keeps R (body x)) -> keeps R (for_each l body).
Proof.
  intros Hbody. induction l as [|x l IH]; simpl.
  - apply keeps_ret.
  - apply keeps_bind; [apply Hbody | intros _; apply IH].
Qed.

Lemma keeps_settle {A} (r : (session * list action) * result A) s0
    on_return on_throw :
  R s0 r.1.1 -> (forall s, R s (on_return s)) ->
  (forall e s, R s (on_throw e s)) ->
  R s0 (settle r on_return on_throw).1.
Proof.
  intros Hr Hret Hthrow. destruct r as [[s tr] [a|e|]]; simpl in *;
    eauto using R_trans.
Qed.

End Frame.

Lemma same_manifest_refl s : same_manifest s s.
Proof. done. Qed.

Lemma same_manifest_trans s1 s2 s3 :
  same_manifest s1 s2 -> same_manifest s2 s3 -> same_manifest s1 s3.
Proof. intros (? & ? & ?) (? & ? & ?). repeat split; congruence. Qed.

Ltac keeps_manifest :=
  repeat first
    [ apply (keeps_bind same_manifest same_manifest_trans); [|intros ?]
    | apply (keeps_for_each same_manifest same_manifest_refl same_manifest_trans);
      intros [? ?]
    | apply (keeps_call same_manifest same_manifest_refl)
    | apply (keeps_ret same_manifest same_manifest_refl)
    | apply (keeps_throw same_manifest same_manifest_refl)
    | apply (keeps_read same_manifest same_manifest_refl)
    | apply keeps_assign; intros ?; done
    | progress simpl
    | match goal with |- keeps _ (match ?x with _ => _ end) => destruct x end
    | match goal with |- keeps _ (if ?x then _ else _) => destruct x end ].

Lemma manifest_steps_keeps : keeps same_manifest manifest_steps.
Proof. unfold manifest_steps. keeps_manifest. Qed.

Lemma downloadImages_keeps : keeps same_manifest downloadImages.
Proof.
  unfold downloadImages.
  apply (keeps_bind _ same_manifest_trans); [apply manifest_steps_keeps|].
  intros steps. keeps_manifest.
Qed.

Lemma unpackImages_keeps : keeps same_manifest unpackImages.
Proof.
  unfold unpackImages.
  apply (keeps_bind _ same_manifest_trans); [apply manifest_steps_keeps|].
  intros steps. keeps_manifest.
Qed.

Lemma getFile_keeps v : keeps same_manifest (getFile v).
Proof. destruct v; simpl; keeps_manifest. Qed.

Lemma flashDevice_keeps : keeps same_manifest flashDevice.
Proof.
  unfold flashDevice.
  apply (keeps_bind _ same_manifest_trans); [keeps_manifest|].
  intros currentSlot. destruct (negb _); [keeps_manifest|].
  apply (keeps_bind _ same_manifest_trans); [apply manifest_steps_keeps|].
  intros steps. apply (keeps_bind _ same_manifest_trans).
  - apply (keeps_for_each _ same_manifest_refl same_manifest_trans).
    intros [image onProgress].
    apply (keeps_bind _ same_manifest_trans); [keeps_manifest|]. intros fileHandle.
    apply (keeps_bind _ same_manifest_trans); [apply getFile_keeps|]. intros blob.
    keeps_manifest.
  - intros _. keeps_manifest.
Qed.

Lemma eraseDevice_keeps : keeps same_manifest eraseDevice.
Proof. unfold eraseDevice. keeps_manifest. Qed.

Lemma onConnected_keeps : keeps same_manifest onConnected.
Proof. unfold onConnected. keeps_manifest. Qed.


Lemma waitChain_keeps w s : same_manifest s (waitChain w s).1.
Proof.
  unfold waitChain. destruct (answer w [] WaitForConnect); try done.
  pose proof (onConnected_keeps w (s, [WaitForConnect; Connect])) as Hk.
  destruct (onConnected w _) as [[s' tr] [a|e|]]; simpl in *; try done.
Qed.

Lemma connectChain_keeps w s : same_manifest s (connectChain w s).
Proof. unfold connectChain. destruct (answer w _ Connect); done. Qed.

Lemma connecting_keeps w s : same_manifest s (connecting w s).1.
Proof.
  unfold connecting. destruct (connect_settles_last w).
  - pose proof (waitChain_keeps w s) as Hk.
    destruct (waitChain w s) as [s' tr]; simpl in *.
    eapply same_manifest_trans; [exact Hk | apply connectChain_keeps].
  - eapply same_manifest_trans; [apply connectChain_keeps | apply waitChain_keeps].
Qed.

Lemma stageEffect_keeps w s : same_manifest s (stageEffect w s).1.
Proof.
  unfold stageEffect. simpl. destruct (error_truthy (error s)); [done|].
  destruct (step s); try done.
  - eapply same_manifest_trans; [|apply connecting_keeps]. done.
  - apply (keeps_settle _ same_manifest_trans); try done.
    eapply same_manifest_trans; [|apply downloadImages_keeps]. done.
  - apply (keeps_settle _ same_manifest_trans); try done.
    + eapply same_manifest_trans; [|apply unpackImages_keeps]. done.
    + intros [reason|] s0; simpl; [|done].
      destruct (JS.startsWith _ _); done.
  - apply (keeps_settle _ same_manifest_trans); try done.
    eapply same_manifest_trans; [|apply flashDevice_keeps]. done.
  - apply (keeps_settle _ same_manifest_trans); try done.
    eapply same_manifest_trans; [|apply eraseDevice_keeps]. done.
Qed.

Lemma handleContinue_manifest_loaded env s :
  manifest_loaded s -> manifest_loaded (handleContinue env s).
Proof.
  intros Hs. unfold handleContinue.
  destruct (isInitialized s) eqn:Hi; simpl.
  - destruct (bool_decide _); simpl; [|done]. unfold manifest_loaded. done.
  - pose proof (initialize_manifest_loaded env s Hs) as Hl.
    destruct (initialize env s) as [s1 [r|]]; simpl in *; [|done].
    destruct (bool_decide _); simpl; done.
Qed.

Lemma reachable_manifest_loaded s : reachable s -> manifest_loaded s.
Proof.
  induction 1 as [iw|s e Hs IH].
  - intros Hi. done.
  - destruct (transition_frame e s) as (_ & _ & Hi & Hm).
    unfold manifest_loaded. rewrite Hi, Hm.
    destruct e as [env|env|w]; simpl.
    + by apply initialize_manifest_loaded.
    + by apply handleContinue_manifest_loaded.
    + destruct (stageEffect_keeps w s) as (-> & -> & _). done.
Qed.

(** C7. An initialization attempt whose manifest parses to the empty
    sequence fails: its promise resolves false, [error] becomes
    [UNKNOWN], [isInitialized] stays false and the step does not move,
    be the attempt made on mount or awaited by [continue()]; every
    reachable session that is initialized holds a manifest that is not
    empty. *)
Theorem empty_manifest_is_fatal env s :
  (isInitialized s = false -> initializePromise s = NoPromise ->
   has_usb env = true -> has_Worker env = true -> has_Storage env = true ->
   imageWorker s = true -> loaded env = Loaded [] ->
     (initialize env s).2 = Some false
     /\ error (transition (Mount env) s) = UNKNOWN
     /\ isInitialized (transition (Mount env) s) = false
     /\ step (transition (Mount env) s) = step s
     /\ error (transition (Continue env) s) = UNKNOWN
     /\ isInitialized (transition (Continue env) s) = false
     /\ step (transition (Continue env) s) = step s)
  /\ (reachable s -> isInitialized s = true ->
      exists images, manifest s = Some images /\ images <> []).
Proof.
  split.
  - intros Hi Hp Hu Hw Hst Hiw Hl.
    destruct (transition_frame (Mount env) s) as (-> & -> & -> & _).
    destruct (transition_frame (Continue env) s) as (-> & -> & -> & _).
    simpl. unfold handleContinue, initialize.
    rewrite Hi, Hp, Hu, Hw, Hst, Hiw, Hl. simpl. done.
  - apply reachable_manifest_loaded.
Qed.



Lemma same_stage_refl s : same_stage s s.
Proof. done. Qed.

Lemma same_stage_trans s1 s2 s3 :
  same_stage s1 s2 -> same_stage s2 s3 -> same_stage s1 s3.
Proof. intros (? & ?) (? & ?). split; congruence. Qed.

Ltac keeps_stage :=
  repeat first
    [ apply (keeps_bind same_stage same_stage_trans); [|intros ?]
    | apply (keeps_for_each same_stage same_stage_refl same_stage_trans);
      intros [? ?]
    | apply (keeps_call same_stage same_stage_refl)
    | apply (keeps_ret same_stage same_stage_refl)
    | apply (keeps_throw same_stage same_stage_refl)
    | apply (keeps_read same_stage same_stage_refl)
    | apply keeps_assign; intros ?; done
    | progress simpl
    | match goal with |- keeps _ (match ?x with _ => _ end) => destruct x end
    | match goal with |- keeps _ (if ?x then _ else _) => destruct x end ].

Lemma manifest_steps_stage : keeps same_stage manifest_steps.
Proof. unfold manifest_steps. keeps_stage. Qed.

Lemma unpackImages_stage : keeps same_stage unpackImages.
Proof.
  unfold unpackImages.
  apply (keeps_bind _ same_stage_trans); [apply manifest_steps_stage|].
  intros steps. unfold unpackStep. keeps_stage.
Qed.

Lemma flashStep_stage x : keeps same_stage (flashStep x).
Proof.
  destruct x as [image onProgress]. unfold flashStep.
  apply (keeps_bind _ same_stage_trans); [keeps_stage|]. intros fileHandle.
  apply (keeps_bind _ same_stage_trans); [destruct fileHandle; simpl; keeps_stage|].
  intros blob. keeps_stage.
Qed.

Lemma flashDevice_stage : keeps same_stage flashDevice.
Proof.
  unfold flashDevice.
  apply (keeps_bind _ same_stage_trans); [keeps_stage|].
  intros currentSlot. destruct (negb _); [keeps_stage|].
  apply (keeps_bind _ same_stage_trans); [apply manifest_steps_stage|].
  intros steps. apply (keeps_bind _ same_stage_trans).
  - apply (keeps_for_each _ same_stage_refl same_stage_trans), flashStep_stage.
  - intros _. keeps_stage.
Qed.

(** The list [withProgress] returns pairs the steps, in their order,
    with their callbacks. *)
Lemma imap_fst {A B} (g : nat -> A -> B) (l : list A) :
  (imap (fun idx x => (x, g idx x)) l).*1 = l.
Proof.
  revert g. induction l as [|x l IH]; intros g; simpl; [done|].
  f_equal. apply (IH (fun idx => g (S idx))).
Qed.

Lemma withProgress_steps (images : list Image) p :
  (Progress.withProgress images p).2.*1 = images.
Proof.
  unfold Progress.withProgress.
  destruct (Progress.createSteps _ _) as [c callbacks]. simpl.
  apply (imap_fst (fun idx _ => callbacks !! idx)).
Qed.

Lemma manifest_steps_loaded w s tr images :
  manifest s = Some images ->
  exists steps, manifest_steps w (s, tr) = ((s, tr), Returned steps)
                /\ steps.*1 = images.
Proof.
  intros Hm. exists (Progress.withProgress images (progress s)).2. split.
  - unfold manifest_steps, mbind, M_bind, read. simpl. by rewrite Hm.
  - apply withProgress_steps.
Qed.

(** C5. In [FLASHING], when the device answers the [current-slot]
    query with a value that is neither ["a"] nor ["b"], that query is
    the only call made (no erase, flash or set_active command is
    issued), [error] becomes [FLASH_FAILED], the step stays [FLASHING]
    and [progress] falls back to -1. *)
Theorem unknown_slot_fails w s v :
  step s = FLASHING -> error s = NONE ->
  answer w [] (GetVariable "current-slot") = Resolved v ->
  v <> VString "a" -> v <> VString "b" ->
  (stageEffect w s).2 = [GetVariable "current-slot"]
  /\ filter device_command (stageEffect w s).2 = []
  /\ error (stageEffect w s).1 = FLASH_FAILED
  /\ step (stageEffect w s).1 = FLASHING
  /\ error (transition (Stage w) s) = FLASH_FAILED
  /\ step (transition (Stage w) s) = FLASHING
  /\ progress (transition (Stage w) s) = -1.
Proof.
  intros Hst He Hans Ha Hb.
  assert (Hrun : stageEffect w s
            = (set_error FLASH_FAILED
                 (set_progress 0 (set_message EmptyString (set_progress (-1) s))),
               [GetVariable "current-slot"])).
  { unfold stageEffect. simpl. rewrite He, Hst. simpl.
    unfold flashDevice.
    erewrite bind_returned by (apply call_resolved; exact Hans).
    rewrite !bool_decide_eq_false_2 by done. simpl. done. }
  unfold transition. simpl. rewrite Hrun. simpl.
  rewrite He. simpl. done.
Qed.


Section Flashing.

Variable w : world.
Variable handle_of : Image -> nat.
Variable blob_of : Image -> value.

Hypothesis image_resolves : forall h image,
  answer w h (GetImage image) = Resolved (VObject (handle_of image)).
Hypothesis file_resolves : forall h image,
  answer w h (GetFile (handle_of image)) = Resolved (blob_of image).
Hypothesis command_resolves : forall h command,
  exists v, answer w h (RunCommand command) = Resolved v.
Hypothesis flash_resolves : forall h partition blob slot,
  exists v, answer w h (FlashBlob partition blob slot) = Resolved v.

Lemma flashStep_calls x s tr :
  exists s', flashStep x w (s, tr)
             = ((s', tr ++ flash_calls handle_of blob_of x.1), Returned tt).
Proof.
  destruct x as [image onProgress]. unfold flashStep, flash_calls. simpl.
  erewrite bind_returned by apply call_resolved, image_resolves. simpl.
  erewrite bind_returned by apply call_resolved, file_resolves.
  destruct (flash_resolves
              ((tr ++ [GetImage image]) ++ [GetFile (handle_of image)]
               ++ (if sparse image then [RunCommand ("erase:" +:+ name image)] else []))
              (name image) (blob_of image) "other") as [v Hv].
  destruct (sparse image).
  - destruct (command_resolves
                ((tr ++ [GetImage image]) ++ [GetFile (handle_of image)])
                ("erase:" +:+ name image)) as [v' Hv'].
    eexists. unfold mbind, M_bind, assign, call. simpl.
    rewrite Hv'. simpl. rewrite <- !(assoc_L (++)). simpl.
    rewrite <- !(assoc_L (++)) in Hv. simpl in Hv. rewrite Hv. done.
  - eexists. unfold mbind, M_bind, assign, call. simpl.
    rewrite <- !(assoc_L (++)). simpl.
    rewrite <- !(assoc_L (++)) in Hv. simpl in Hv. rewrite Hv. done.
Qed.

Lemma flashSteps_calls steps s tr :
  exists s', for_each steps flashStep w (s, tr)
             = ((s', tr ++ concat (map (flash_calls handle_of blob_of) steps.*1)),
                Returned tt).
Proof.
  revert s tr. induction steps as [|x steps IH]; intros s tr; simpl.
  - exists s. by rewrite app_nil_r.
  - destruct (flashStep_calls x s tr) as [s1 H1].
    erewrite bind_returned by exact H1.
    destruct (IH s1 (tr ++ flash_calls handle_of blob_of x.1)) as [s2 H2].
    exists s2. rewrite H2. by rewrite <- (assoc_L (++)).
Qed.

Lemma flash_calls_no_set_active image :
  filter is_set_active (flash_calls handle_of blob_of image) = [].
Proof. unfold flash_calls. destruct (sparse image); done. Qed.

Lemma flash_loop_no_set_active images :
  filter is_set_active (concat (map (flash_calls handle_of blob_of) images)) = [].
Proof.
  induction images as [|image images IH]; [done|].
  change (filter is_set_active (flash_calls handle_of blob_of image
            ++ concat (map (flash_calls handle_of blob_of) images)) = []).
  by rewrite filter_app, flash_calls_no_set_active, IH.
Qed.

(** C4. In [FLASHING], with a device in slot ["a"] or ["b"] and a
    device and worker that answer every call, the calls made are: the
    [current-slot] query; then for each image, in manifest order, the
    image's file handle, its file, [erase:<name>] exactly when the image
    is sparse, and the flash of the blob into the ['other'] slot; then
    one [set_active] command, for ["b"] if the current slot is ["a"] and
    for ["a"] otherwise, the only such command. The step then advances
    to [ERASING]. *)
Theorem flashing_sequence s images slot :
  step s = FLASHING -> error s = NONE -> manifest s = Some images ->
  slot = "a" \/ slot = "b" ->
  answer w [] (GetVariable "current-slot") = Resolved (VString slot) ->
  let otherSlot := if decide (slot = "a") then "b" else "a" in
  (stageEffect w s).2
    = [GetVariable "current-slot"]
      ++ concat (map (flash_calls handle_of blob_of) images)
      ++ [RunCommand ("set_active:" +:+ otherSlot)]
  /\ filter is_set_active (stageEffect w s).2
     = [RunCommand ("set_active:" +:+ otherSlot)]
  /\ step (stageEffect w s).1 = ERASING
  /\ error (stageEffect w s).1 = NONE.
Proof.
  intros Hst He Hm Hslot Hans otherSlot.
  set (s0 := set_progress 0 (set_message EmptyString (set_progress (-1) s))).
  assert (Hrun : exists s', flashDevice w (s0, [])
            = ((s', [GetVariable "current-slot"]
                    ++ concat (map (flash_calls handle_of blob_of) images)
                    ++ [RunCommand ("set_active:" +:+ otherSlot)]), Returned tt)).
  { unfold flashDevice.
    erewrite bind_returned by (apply call_resolved; exact Hans).
    assert (Hok : negb (bool_decide (VString slot = VString "a")
                        || bool_decide (VString slot = VString "b")) = false).
    { destruct Hslot as [-> | ->]; done. }
    rewrite Hok.
    destruct (manifest_steps_loaded w s0 ([] ++ [GetVariable "current-slot"])
                images Hm) as (steps & Hsteps & Hfst).
    erewrite bind_returned by exact Hsteps.
    destruct (flashSteps_calls steps s0 ([] ++ [GetVariable "current-slot"]))
      as [s1 H1].
    erewrite bind_returned by exact H1. rewrite Hfst.
    assert (Hother : (if bool_decide (VString slot = VString "a") then "b" else "a")
                     = otherSlot).
    { unfold otherSlot. destruct Hslot as [-> | ->]; done. }
    rewrite Hother.
    destruct (command_resolves
                (([] ++ [GetVariable "current-slot"])
                 ++ concat (map (flash_calls handle_of blob_of) images))
                ("set_active:" +:+ otherSlot)) as [v Hv].
    eexists. unfold mbind, M_bind, assign, call. simpl. simpl in Hv.
    rewrite Hv. simpl. done. }
  destruct Hrun as [s' Hrun].
  pose proof (flashDevice_stage w (s0, [])) as [Hstep Herr].
  rewrite Hrun in Hstep, Herr. simpl in Hstep, Herr.
  assert (Heff : stageEffect w s
                 = (set_step ERASING s',
                    [GetVariable "current-slot"]
                    ++ concat (map (flash_calls handle_of blob_of) images)
                    ++ [RunCommand ("set_active:" +:+ otherSlot)])).
  { unfold stageEffect. simpl. rewrite He, Hst. simpl. fold s0.
    rewrite Hrun. done. }
  rewrite Heff. cbn [fst snd]. split; [done|].
  split; [|split; [done|simpl; congruence]].
  rewrite !filter_app, flash_loop_no_set_active.
  unfold otherSlot. destruct (decide (slot = "a")); done.
Qed.

End Flashing.




End SessionFacts.

Section Scenarios.

Import Manifest Fastboot Scenario.

(** The sample session runs from the press of the button to [DONE]. *)
Example sample_session_completes :
  step at_flashing = FLASHING
  /\ serial at_flashing = Some "abc123"
  /\ step (run_events [Stage (obliging "a"); Stage (obliging "a")] at_flashing) = DONE
  /\ reachable at_flashing.
Proof.
  split; [vm_compute; reflexivity|]. split; [vm_compute; reflexivity|].
  split; [vm_compute; reflexivity|].
  unfold at_flashing, at_unpacking, at_downloading, at_connecting.
  do 4 apply reachable_transition. apply reachable_initial.
Qed.


Lemma empty_manifest_is_fatal_witness :
  loaded (capable (Loaded [])) = Loaded []
  /\ error (transition (Mount (capable (Loaded []))) (initial true)) = UNKNOWN
  /\ isInitialized (transition (Mount (capable (Loaded []))) (initial true)) = false.
Proof.
  split; [reflexivity|].
  destruct (empty_manifest_is_fatal (capable (Loaded [])) (initial true))
    as (Hfatal & _).
  destruct Hfatal as (_ & He & Hi & _); try reflexivity.
  split; [exact He | exact Hi].
Defined.


Lemma unknown_slot_fails_witness :
  step at_flashing = FLASHING
  /\ answer (obliging "c") [] (GetVariable "current-slot") = Resolved (VString "c")
  /\ error (transition (Stage (obliging "c")) at_flashing) = FLASH_FAILED
  /\ (stageEffect (obliging "c") at_flashing).2 = [GetVariable "current-slot"].
Proof.
  assert (Hst : step at_flashing = FLASHING) by (vm_compute; reflexivity).
  assert (He : error at_flashing = NONE) by (vm_compute; reflexivity).
  assert (Hans : answer (obliging "c") [] (GetVariable "current-slot")
                 = Resolved (VString "c")) by reflexivity.
  assert (Ha : VString "c" <> VString "a") by discriminate.
  assert (Hb : VString "c" <> VString "b") by discriminate.
  destruct (unknown_slot_fails (obliging "c") at_flashing (VString "c")
              Hst He Hans Ha Hb) as (Htr & _ & _ & _ & Herr & _).
  split; [exact Hst|]. split; [exact Hans|]. split; [exact Herr | exact Htr].
Defined.

Lemma flashing_sequence_witness :
  manifest at_flashing = Some [boot; system]
  /\ (stageEffect (obliging "a") at_flashing).2
     = [GetVariable "current-slot";
        GetImage boot; GetFile 4; FlashBlob "boot" (VObject 104) "other";
        GetImage system; GetFile 6; RunCommand "erase:system";
        FlashBlob "system" (VObject 106) "other";
        RunCommand "set_active:b"]
  /\ step (stageEffect (obliging "a") at_flashing).1 = ERASING.
Proof.
  assert (Hst : step at_flashing = FLASHING) by (vm_compute; reflexivity).
  assert (He : error at_flashing = NONE) by (vm_compute; reflexivity).
  assert (Hm : manifest at_flashing = Some [boot; system]) by (vm_compute; reflexivity).
  assert (Himage : forall h image,
            answer (obliging "a") h (GetImage image)
            = Resolved (VObject (handle_of image))) by reflexivity.
  assert (Hfile : forall h image,
            answer (obliging "a") h (GetFile (handle_of image))
            = Resolved (blob_of image)) by reflexivity.
  assert (Hcommand : forall h command,
            exists v, answer (obliging "a") h (RunCommand command) = Resolved v)
    by (intros; eexists; reflexivity).
  assert (Hflash : forall h partition blob slot,
            exists v, answer (obliging "a") h (FlashBlob partition blob slot)
                      = Resolved v)
    by (intros; eexists; reflexivity).
  destruct (flashing_sequence (obliging "a") handle_of blob_of
              Himage Hfile Hcommand Hflash at_flashing [boot; system] "a"
              Hst He Hm (or_introl eq_refl) eq_refl) as (Htr & _ & Hstep & _).
  split; [exact Hm|]. split; [exact Htr | exact Hstep].
Defined.


End Scenarios.

(** ** Ranges and growth of the aggregate *)

Section AggregateFacts.
Import Progress.












(** [withProgress] pairs the step at index [i] with the callback of
    index [i] and returns as many pairs as there are steps; that
    callback records its argument for task [i] and leaves the values of
    the other tasks alone. *)
Theorem withProgress_pairs {T} `{StepLike T} (steps : list T) (p0 : Qc) i step :
  steps !! i = Some step ->
  (withProgress steps p0).2 !! i = Some (step, Some (step_callback i))
  /\ length (withProgress steps p0).2 = length steps
  /\ forall us v,
       let c := run (createSteps (StepList (map stepWeight steps)) p0).2
                  (withProgress steps p0).1 us in
       progressParts (step_callback i v c) !! i = Some v
       /\ forall j, j <> i ->
            progressParts (step_callback i v c) !! j = progressParts c !! j.
Proof.
  intros Hi.
  assert (Hlt : (i < length (weights_of (StepList (map stepWeight steps))))%nat).
  { simpl. rewrite length_map. by eapply lookup_lt_Some. }
  assert (Hwp : withProgress steps p0
                = ((createSteps (StepList (map stepWeight steps)) p0).1,
                   imap (fun idx step =>
                           (step, (createSteps (StepList (map stepWeight steps)) p0).2
                                    !! idx)) steps)).
  { unfold withProgress. by destruct (createSteps _ _). }
  rewrite Hwp. cbn [fst snd]. split; [|split].
  - rewrite list_lookup_imap, Hi. cbn beta.
    rewrite createSteps_callbacks, decide_True by done. done.
  - apply length_imap.
  - intros us v.
    pose proof (run_ok (StepList (map stepWeight steps)) p0 us) as (_ & _ & Hlen).
    set (c := run _ _ us) in *. unfold step_callback.
    destruct (JS.strict_neq _ _) eqn:Hneq; simpl.
    + split; [apply list_lookup_insert_eq; lia|].
      intros j Hj. by apply list_lookup_insert_ne.
    + split; [|done]. apply strict_neq_false in Hneq. unfold part in Hneq.
      destruct (lookup_lt_is_Some_2 (progressParts c) i) as [x Hx]; [lia|].
      rewrite Hx in Hneq. simpl in Hneq. by rewrite Hx, Hneq.
Qed.

End AggregateFacts.

(** ** The device variables *)

Section ParseFacts.
Import Fastboot.

Lemma split_nonempty c s : split c s <> [].
Proof.
  destruct s as [|a s]; simpl; [done|].
  destruct (Ascii.eqb a c); [done|]. by destruct (split c s).
Qed.

Lemma concat_cons c x l :
  l <> [] ->
  String.concat (String c EmptyString) (x :: l)
  = x +:+ String c (String.concat (String c EmptyString) l).
Proof. by destruct l. Qed.

Lemma split_concat c s : String.concat (String c EmptyString) (split c s) = s.
Proof.
  induction s as [|a s IH]; simpl; [done|].
  destruct (Ascii.eqb_spec a c) as [->|Hne].
  - rewrite concat_cons by apply split_nonempty. simpl. by rewrite IH.
  - pose proof (split_nonempty c s) as Hn.
    destruct (split c s) as [|x xs]; [done|].
    destruct xs as [|y ys]; simpl in *.
    + by rewrite IH.
    + by rewrite <- IH.
Qed.

Lemma split_parts c s : Forall (fun part => occurs c part = false) (split c s).
Proof.
  induction s as [|a s IH]; simpl.
  - by apply Forall_singleton.
  - destruct (Ascii.eqb_spec a c) as [->|Hne].
    + by apply Forall_cons_2.
    + pose proof (split_nonempty c s) as Hn.
      destruct (split c s) as [|x xs]; [done|].
      inversion IH as [|? ? Hx Hxs]; subst. apply Forall_cons_2; [|done].
      simpl. rewrite Hx. by destruct (Ascii.eqb_spec a c).
Qed.

Lemma split_free c s : occurs c s = false -> split c s = [s].
Proof.
  induction s as [|a s IH]; simpl; [done|].
  destruct (Ascii.eqb a c); simpl; [done|]. intros Hs. by rewrite IH.
Qed.

Lemma split_app c s t :
  split c (s +:+ String c t) = split c s ++ split c t.
Proof.
  induction s as [|a s IH]; simpl.
  - by rewrite Ascii.eqb_refl.
  - destruct (Ascii.eqb a c); [by rewrite IH|].
    rewrite IH. pose proof (split_nonempty c s) as Hn.
    by destruct (split c s).
Qed.

Lemma split_join c parts :
  parts <> [] -> Forall (fun part => occurs c part = false) parts ->
  split c (String.concat (String c EmptyString) parts) = parts.
Proof.
  intros Hne Hparts. induction Hparts as [|x xs Hx Hxs IH]; [done|].
  destruct xs as [|y ys].
  - simpl. by apply split_free.
  - rewrite concat_cons by done.
    rewrite split_app, split_free by done. by rewrite IH.
Qed.

Lemma split_round_trip c s :
  String.concat (String c EmptyString) (split c s) = s
  /\ split c s <> []
  /\ Forall (fun part => occurs c part = false) (split c s).
Proof. auto using split_concat, split_nonempty, split_parts. Qed.

Lemma trimStart_split s : exists l, s = l +:+ trimStart s /\ blank l = true.
Proof.
  induction s as [|a s (l & Hl & Hb)]; simpl.
  - by exists EmptyString.
  - destruct (is_space a) eqn:Ha.
    + exists (String a l). split; [|simpl; by rewrite Ha, Hb].
      change (String a s = String a (l +:+ trimStart s)). by f_equal.
    + by exists EmptyString.
Qed.

Lemma trimStart_first s a :
  first_char (trimStart s) = Some a -> is_space a = false.
Proof.
  induction s as [|b s IH]; simpl; [done|].
  destruct (is_space b) eqn:Hb; [done|]. simpl. by intros [= <-].
Qed.

Lemma trimEnd_split s : exists r, s = trimEnd s +:+ r /\ blank r = true.
Proof.
  induction s as [|a s (r & Hr & Hb)]; simpl.
  - by exists EmptyString.
  - destruct (trimEnd s) as [|b t] eqn:Ht.
    + simpl in Hr. destruct (is_space a) eqn:Ha.
      * exists (String a r). split; [|simpl; by rewrite Ha, Hb].
        change (String a s = String a r). by f_equal.
      * exists r. split; [|done].
        change (String a s = String a r). by f_equal.
    + exists r. split; [|done].
      change (String a s = String a (String b t +:+ r)). by f_equal.
Qed.

Lemma trimEnd_last s a : last_char (trimEnd s) = Some a -> is_space a = false.
Proof.
  induction s as [|b s IH]; simpl; [done|].
  destruct (trimEnd s) as [|c t] eqn:Ht.
  - destruct (is_space b) eqn:Hb; simpl; [done|]. by intros [= <-].
  - done.
Qed.

Lemma trimEnd_first s a :
  first_char s = Some a -> is_space a = false -> first_char (trimEnd s) = Some a.
Proof.
  destruct s as [|b s]; simpl; [done|]. intros [= ->] Ha.
  destruct (trimEnd s); [by rewrite Ha | done].
Qed.

Lemma trimStart_id s :
  (forall a, first_char s = Some a -> is_space a = false) -> trimStart s = s.
Proof. destruct s as [|a s]; simpl; [done|]. intros Ha. by rewrite (Ha a). Qed.

Lemma trimEnd_id s :
  (forall a, last_char s = Some a -> is_space a = false) -> trimEnd s = s.
Proof.
  induction s as [|b s IH]; [done|]. intros Hlast. simpl.
  destruct s as [|c s].
  - simpl. by rewrite (Hlast b).
  - rewrite IH by exact Hlast. done.
Qed.

Lemma trim_spec s :
  (exists l r, s = l +:+ trim s +:+ r /\ blank l = true /\ blank r = true)
  /\ trimmed (trim s) = true
  /\ trim (trim s) = trim s.
Proof.
  assert (Hfirst : forall a, first_char (trim s) = Some a -> is_space a = false).
  { intros a Ha. unfold trim in Ha.
    destruct (first_char (trimStart s)) as [b|] eqn:Hb.
    - pose proof (trimStart_first s b Hb) as Hsp.
      rewrite (trimEnd_first _ b Hb Hsp) in Ha. by injection Ha as <-.
    - destruct (trimStart s); [done | discriminate Hb]. }
  assert (Hlast : forall a, last_char (trim s) = Some a -> is_space a = false).
  { intros a. apply trimEnd_last. }
  split; [|split].
  - destruct (trimStart_split s) as (l & Hl & Hbl).
    destruct (trimEnd_split (trimStart s)) as (r & Hr & Hbr).
    exists l, r. unfold trim. by rewrite <- Hr, <- Hl.
  - unfold trimmed.
    destruct (first_char (trim s)) as [a|] eqn:Ha; [|done].
    destruct (last_char (trim s)) as [b|] eqn:Hb; [|done].
    by rewrite (Hfirst a), (Hlast b).
  - unfold trim at 1. rewrite (trimStart_id (trim s)) by exact Hfirst.
    by apply trimEnd_id.
Qed.




Lemma parseDeviceInfo_lines lines :
  lines <> [] -> Forall (fun line => occurs "010"%char line = false) lines ->
  parseDeviceInfo (String.concat (String "010"%char EmptyString) lines)
  = foldl parseLine ∅ lines.
Proof. intros Hne Hlines. unfold parseDeviceInfo. by rewrite split_join. Qed.


End ParseFacts.

(** ** The stages *)

Section StageFacts.
Import Manifest Fastboot.





Ltac frame_stage :=
  repeat first
    [ apply (keeps_bind same_stage same_stage_trans); [|intros ?]
    | apply (keeps_for_each same_stage same_stage_refl same_stage_trans);
      intros [? ?]
    | apply (keeps_call same_stage same_stage_refl)
    | apply (keeps_ret same_stage same_stage_refl)
    | apply keeps_assign; intros ?; done
    | progress simpl ].

Lemma downloadImages_stage : keeps same_stage downloadImages.
Proof.
  unfold downloadImages.
  apply (keeps_bind _ same_stage_trans); [apply manifest_steps_stage|].
  intros steps. unfold downloadStep. frame_stage.
Qed.

Lemma eraseDevice_stage : keeps same_stage eraseDevice.
Proof. unfold eraseDevice. frame_stage. Qed.

Lemma stage_start w s st :
  step s = st -> error s = NONE ->
  stageEffect w s
  = match st with
    | CONNECTING => connecting w (set_message EmptyString (set_progress (-1) s))
    | DOWNLOADING =>
        settle (downloadImages w (set_progress 0 (set_message EmptyString (set_progress (-1) s)), []))
          (set_step UNPACKING) (fun _ => set_error DOWNLOAD_FAILED)
    | UNPACKING =>
        settle (unpackImages w (set_progress 0 (set_message EmptyString (set_progress (-1) s)), []))
          (set_step FLASHING) unpackFailed
    | FLASHING =>
        settle (flashDevice w (set_progress 0 (set_message EmptyString (set_progress (-1) s)), []))
          (set_step ERASING) (fun _ => set_error FLASH_FAILED)
    | ERASING =>
        settle (eraseDevice w (set_progress 0 (set_message EmptyString (set_progress (-1) s)), []))
          (set_step DONE) (fun _ => set_error ERASE_FAILED)
    | READY | DONE => (set_message EmptyString (set_progress (-1) s), [])
    end.
Proof. intros <- He. unfold stageEffect. simpl. rewrite He. simpl. done. Qed.



(** The erase stage sends [erase:userdata], then [continue]. When
    both succeed the step becomes [DONE], the progress is 1 and the
    device counts as disconnected; when the first is rejected the second
    is never sent; on either rejection the error is [ERASE_FAILED] and
    the step and [connected] are unchanged. *)
Theorem erase_stage_outcomes w s :
  step s = ERASING -> error s = NONE ->
  let s' := (stageEffect w s).1 in
  let tr := (stageEffect w s).2 in
  (forall v v', answer w [] (RunCommand "erase:userdata") = Resolved v ->
     answer w [RunCommand "erase:userdata"] (RunCommand "continue") = Resolved v' ->
     tr = [RunCommand "erase:userdata"; RunCommand "continue"]
     /\ step s' = DONE /\ error s' = NONE /\ progress s' = 1
     /\ connected s' = false)
  /\ (forall reason, answer w [] (RunCommand "erase:userdata") = Rejected reason ->
        tr = [RunCommand "erase:userdata"]
        /\ step s' = ERASING /\ error s' = ERASE_FAILED
        /\ connected s' = connected s)
  /\ (forall v reason, answer w [] (RunCommand "erase:userdata") = Resolved v ->
        answer w [RunCommand "erase:userdata"] (RunCommand "continue")
        = Rejected reason ->
        tr = [RunCommand "erase:userdata"; RunCommand "continue"]
        /\ step s' = ERASING /\ error s' = ERASE_FAILED
        /\ connected s' = connected s).
Proof.
  intros Hst He. cbv zeta. rewrite (stage_start w s ERASING Hst He).
  unfold eraseDevice, mbind, M_bind, assign, call. simpl.
  split; [|split].
  - intros v v' H1 H2. rewrite H1. simpl. rewrite H2. simpl. by rewrite He.
  - intros reason ->. simpl. by rewrite Hst.
  - intros v reason H1 H2. rewrite H1. simpl. rewrite H2. simpl. by rewrite Hst.
Qed.





(** When [connect] is rejected while no device has connected, the
    session is back at [READY] with no error, so that the button can be
    pressed again. *)
Theorem connect_failure_returns_to_ready w s reason :
  step s = CONNECTING -> error s = NONE ->
  answer w [WaitForConnect] Connect = Rejected reason ->
  answer w [] WaitForConnect = Pending ->
  (stageEffect w s).1
  = set_step READY (set_message EmptyString (set_progress (-1) s))
  /\ transition (Stage w) s
     = set_step READY (set_message EmptyString (set_progress (-1) s)).
Proof.
  intros Hst He Hc Hw.
  assert (Heff : (stageEffect w s).1
                 = set_step READY (set_message EmptyString (set_progress (-1) s))).
  { rewrite (stage_start w s CONNECTING Hst He).
    unfold connecting, waitChain, connectChain. rewrite Hc, Hw.
    by destruct (connect_settles_last w). }
  split; [done|]. unfold transition. simpl. rewrite Heff. simpl.
  by rewrite bool_decide_eq_true_2.
Qed.








Lemma settle_one_move {A} (r : (session * list action) * result A) s st next kinds
    on_throw :
  step s = st -> error s = NONE -> next = next_step st ->
  st <> READY -> st <> DONE -> stage_errors st = kinds ->
  same_stage s r.1.1 ->
  (forall e s0, step (on_throw e s0) = step s0
                /\ (error (on_throw e s0) = error s0
                    \/ error (on_throw e s0) ∈ kinds)) ->
  one_move s (settle r (set_step next) on_throw).1.
Proof.
  intros Hst He -> Hr Hd Hk [Hstep Herr] Hthrow.
  destruct r as [[s1 tr] [a|e|]]; simpl in *.
  - right. left. repeat split; simpl; congruence.
  - destruct (Hthrow e s1) as [Hs [Hsame|Hkind]].
    + left. split; congruence.
    + right. right. left.
      repeat split; [done | congruence | by rewrite Hst, Hk].
  - left. done.
Qed.

Lemma waitChain_moves w s :
  (step (waitChain w s).1 = step s /\ error (waitChain w s).1 = error s)
  \/ (step (waitChain w s).1 = DOWNLOADING /\ error (waitChain w s).1 = error s)
  \/ (step (waitChain w s).1 = step s
      /\ error (waitChain w s).1 ∈ stage_errors CONNECTING).
Proof.
  unfold waitChain, onConnected, mbind, M_bind, assign, call, throw. simpl.
  destruct (answer w [] WaitForConnect); simpl; [|right; right; set_solver|by left].
  destruct (answer w _ (GetVariable "all")) as [all|reason|]; simpl;
    [|right; right; set_solver|by left].
  destruct all as [| |text|ref]; simpl; try (right; right; set_solver).
  destruct (isRecognizedDevice _); simpl; [by right; left|right; right; set_solver].
Qed.

Lemma connecting_moves w s :
  step s = CONNECTING -> error s = NONE ->
  (step (connecting w s).1 = CONNECTING /\ error (connecting w s).1 = NONE)
  \/ (step (connecting w s).1 = DOWNLOADING /\ error (connecting w s).1 = NONE)
  \/ (step (connecting w s).1 = CONNECTING
      /\ error (connecting w s).1 ∈ stage_errors CONNECTING)
  \/ (step (connecting w s).1 = READY
      /\ (error (connecting w s).1 = NONE
          \/ error (connecting w s).1 ∈ stage_errors CONNECTING)).
Proof.
  intros Hst He. unfold connecting, connectChain.
  destruct (connect_settles_last w).
  - pose proof (waitChain_moves w s) as Hw. rewrite Hst, He in Hw.
    destruct (waitChain w s) as [s1 tr]. simpl in *.
    destruct (answer w [WaitForConnect] Connect); simpl;
      destruct Hw as [[? ?]|[[? ?]|[? ?]]]; eauto 6.
  - destruct (answer w [WaitForConnect] Connect); simpl.
    + pose proof (waitChain_moves w s) as Hw. rewrite Hst, He in Hw.
      destruct Hw as [[? ?]|[[? ?]|[? ?]]]; eauto 6.
    + pose proof (waitChain_moves w (set_step READY s)) as Hw.
      simpl in Hw. rewrite He in Hw.
      destruct Hw as [[? ?]|[[? ?]|[? ?]]]; eauto 6.
    + pose proof (waitChain_moves w s) as Hw. rewrite Hst, He in Hw.
      destruct Hw as [[? ?]|[[? ?]|[? ?]]]; eauto 6.
Qed.

(** Whatever the device and the worker answer, a run of the stage
    effect leaves [step] and [error] alone, or moves to the next stage
    without an error, or stays at its stage with one of the errors of
    that stage, or, from [CONNECTING] only, falls back to [READY]. It
    never skips a stage and never clears an error. *)
Theorem stage_effect_is_one_move w s : one_move s (stageEffect w s).1.
Proof.
  destruct (decide (error s = NONE)) as [He|He].
  2: { rewrite (stageEffect_error w s He). by left. }
  rewrite (stage_start w s (step s) eq_refl He).
  set (s0 := set_message EmptyString (set_progress (-1) s)).
  destruct (step s) eqn:Hst; try (by left).
  - destruct (connecting_moves w s0 Hst He) as [[? ?]|[[? ?]|[[? ?]|[? ?]]]];
      unfold one_move; rewrite Hst, He.
    + left. done.
    + right. left. done.
    + right. right. left. done.
    + right. right. right. done.
  - eapply settle_one_move with (st := DOWNLOADING);
      [exact Hst | exact He | reflexivity | done | done | reflexivity | |].
    + eapply same_stage_trans; [|apply downloadImages_stage]. done.
    + intros e s1. split; [done|]. right. set_solver.
  - eapply settle_one_move with (st := UNPACKING);
      [exact Hst | exact He | reflexivity | done | done | reflexivity | |].
    + eapply same_stage_trans; [|apply unpackImages_stage]. done.
    + intros [reason|] s1; simpl; [|by split; [|left]].
      destruct (JS.startsWith _ _); simpl; (split; [done|]); right; set_solver.
  - eapply settle_one_move with (st := FLASHING);
      [exact Hst | exact He | reflexivity | done | done | reflexivity | |].
    + eapply same_stage_trans; [|apply flashDevice_stage]. done.
    + intros e s1. split; [done|]. right. set_solver.
  - eapply settle_one_move with (st := ERASING);
      [exact Hst | exact He | reflexivity | done | done | reflexivity | |].
    + eapply same_stage_trans; [|apply eraseDevice_stage]. done.
    + intros e s1. split; [done|]. right. set_solver.
Qed.

End StageFacts.

(** ** Initialization *)

Section InitializeFacts.
Import Manifest Fastboot.

(** Once an attempt has found WebUSB, Web Workers or the Storage API
    missing, the error is [REQUIREMENTS_NOT_MET] and no later call of
    [initialize], by the effect or by the button, does anything, even in
    an environment that has all three: every call returns the result of
    the first attempt. *)
Theorem missing_capability_is_final env s :
  isInitialized s = false -> initializePromise s = NoPromise ->
  all_capabilities env = false ->
  let s1 := transition (Mount env) s in
  error s1 = REQUIREMENTS_NOT_MET
  /\ manifest s1 = manifest s /\ isInitialized s1 = false
  /\ forall env',
       initialize env' s1 = (s1, Some false)
       /\ transition (Mount env') s1 = s1
       /\ transition (Continue env') s1 = s1.
Proof.
  intros Hi Hp Hcap.
  assert (Hs1 : exists s1, transition (Mount env) s = s1
            /\ error s1 = REQUIREMENTS_NOT_MET /\ manifest s1 = manifest s
            /\ isInitialized s1 = false /\ initializePromise s1 = Settled false).
  { eexists. split; [reflexivity|].
    unfold transition, handle, initialize, all_capabilities in *.
    rewrite Hi, Hp.
    destruct (has_usb env), (has_Worker env), (has_Storage env); try done;
      simpl; case_bool_decide; unfold errorEffect; simpl; done. }
  destruct Hs1 as (s1 & -> & He & Hm & Hi1 & Hp1). cbv zeta.
  split; [done|]. split; [done|]. split; [done|]. intros env'.
  assert (Hinit : initialize env' s1 = (s1, Some false)).
  { unfold initialize. by rewrite Hi1, Hp1. }
  split; [done|]. unfold transition, handle, handleContinue.
  rewrite Hi1. simpl. rewrite Hinit. simpl.
  rewrite He. simpl. by rewrite bool_decide_eq_true_2.
Qed.

(** A manifest load that throws leaves the session uninitialised with
    the error [UNKNOWN]; a later attempt loads the manifest, but the
    error stays, so the button still does not start the flow. *)
Theorem failed_load_can_be_retried env env' images s :
  isInitialized s = false -> initializePromise s = NoPromise ->
  imageWorker s = true -> error s = NONE ->
  all_capabilities env = true -> loaded env = LoadThrows ->
  all_capabilities env' = true -> loaded env' = Loaded images -> images <> [] ->
  let s1 := transition (Mount env) s in
  let s2 := transition (Mount env') s1 in
  error s1 = UNKNOWN /\ isInitialized s1 = false
  /\ isInitialized s2 = true /\ manifest s2 = Some images
  /\ error s2 = UNKNOWN
  /\ forall env'', step (transition (Continue env'') s2) = step s.
Proof.
  intros Hi Hp Hw He Hcap Hl Hcap' Hl' Hne.
  unfold all_capabilities in *.
  apply andb_true_iff in Hcap as [Hcap Hs]. apply andb_true_iff in Hcap as [Hu Hwk].
  apply andb_true_iff in Hcap' as [Hcap' Hs']. apply andb_true_iff in Hcap' as [Hu' Hwk'].
  assert (H1 : transition (Mount env) s
               = set_onRetry true (set_progress (-1) (set_error UNKNOWN s))).
  { unfold transition, handle, initialize.
    rewrite Hi, Hp, Hu, Hwk, Hs, Hw, Hl. simpl. rewrite He. simpl. done. }
  cbv zeta. rewrite H1.
  assert (H2 : transition (Mount env')
                 (set_onRetry true (set_progress (-1) (set_error UNKNOWN s)))
               = set_isInitialized true
                   (set_manifest (Some images)
                      (set_onRetry true (set_progress (-1) (set_error UNKNOWN s))))).
  { unfold transition, handle, initialize. simpl.
    rewrite Hi, Hp, Hu', Hwk', Hs', Hw, Hl'. simpl.
    destruct images; [done|]. simpl. done. }
  rewrite H2. repeat split; done.
Qed.

(** Once the session is initialised, no event changes the manifest or
    the initialised flag. *)
Theorem manifest_is_loaded_once e s :
  isInitialized s = true ->
  manifest (transition e s) = manifest s
  /\ isInitialized (transition e s) = true.
Proof.
  intros Hi. destruct (transition_frame e s) as (_ & _ & -> & ->).
  destruct e as [env|env|w]; simpl.
  - unfold initialize. by rewrite Hi.
  - unfold handleContinue. rewrite Hi. simpl. by destruct (negb _).
  - by destruct (stageEffect_keeps w s) as (-> & -> & _).
Qed.

(** With the session initialised and no error, the button sets the
    step to [CONNECTING] from every step, the steps in which the device
    is being written included, and changes nothing else. *)
Theorem continue_restarts_from_any_step env s :
  isInitialized s = true -> error s = NONE ->
  transition (Continue env) s = set_step CONNECTING s
  /\ (step s = DONE -> step (transition (Continue env) s) = CONNECTING).
Proof.
  intros Hi He.
  assert (H : transition (Continue env) s = set_step CONNECTING s).
  { unfold transition, handle, handleContinue. rewrite Hi. simpl.
    rewrite He. simpl. by rewrite He. }
  split; [done|]. intros _. by rewrite H.
Qed.

Lemma initialize_without_worker env s :
  imageWorker s = false -> never_loaded s -> never_loaded (initialize env s).1.
Proof.
  intros Hw (Hm & Hi). unfold never_loaded, initialize. rewrite Hi.
  destruct (initializePromise s) as [|r|]; simpl; try done.
  destruct (has_usb env), (has_Worker env), (has_Storage env); simpl; try done.
  rewrite Hw. done.
Qed.

Lemma handle_without_worker e s :
  imageWorker s = false -> never_loaded s ->
  imageWorker (handle e s) = false /\ never_loaded (handle e s).
Proof.
  intros Hw Hs. destruct e as [env|env|w]; simpl.
  - split; [|by apply initialize_without_worker].
    by destruct (initialize_frame env s) as (_ & _ & _ & _ & ->).
  - pose proof (initialize_without_worker env s Hw Hs) as Hn.
    pose proof (initialize_frame env s) as (_ & _ & _ & _ & Hiw).
    destruct Hs as (Hm & Hi).
    unfold handleContinue. rewrite Hi. simpl.
    destruct (initialize env s) as [s1 [r|]]; simpl in *; [|by rewrite Hiw].
    destruct (negb _); simpl; by rewrite Hiw.
  - destruct (stageEffect_keeps w s) as (Hm & Hi & Hiw). destruct Hs.
    unfold never_loaded. by rewrite Hm, Hi, Hiw.
Qed.

Lemma reachable_without_worker s :
  reachable s -> imageWorker s = false -> never_loaded s.
Proof.
  induction 1 as [iw|s e Hs IH]; [done|].
  assert (Hflush : imageWorker (transition e s) = imageWorker (handle e s)
            /\ (never_loaded (handle e s) -> never_loaded (transition e s))).
  { unfold transition, errorEffect. destruct (bool_decide _); [done|].
    by destruct (negb _). }
  destruct Hflush as [Hiw Hn]. rewrite Hiw. intros Hw.
  assert (Hws : imageWorker s = false).
  { destruct e as [env|env|w]; simpl in Hw.
    - by destruct (initialize_frame env s) as (_ & _ & _ & _ & <-).
    - revert Hw. unfold handleContinue.
      pose proof (initialize_frame env s) as (_ & _ & _ & _ & Hf).
      destruct (negb (isInitialized s)); simpl.
      + destruct (initialize env s) as [s1 [r|]]; simpl in *; [|congruence].
        destruct (negb _); simpl; congruence.
      + by destruct (negb _).
    - by destruct (stageEffect_keeps w s) as (_ & _ & <-). }
  apply Hn. by apply handle_without_worker, IH.
Qed.

(** Where no image worker exists, no manifest is ever loaded; the
    button starts the flow all the same, without an error, and the
    download stage then fails with [DOWNLOAD_FAILED] before it has made
    a single call. *)
Theorem missing_worker_fails_at_download w env s :
  reachable s -> imageWorker s = false ->
  never_loaded s
  /\ (all_capabilities env = true ->
      step (transition (Continue env) (initial false)) = CONNECTING
      /\ isInitialized (transition (Continue env) (initial false)) = false
      /\ error (transition (Continue env) (initial false)) = NONE)
  /\ (error s = NONE -> step s = DOWNLOADING ->
      (stageEffect w s).2 = []
      /\ error (stageEffect w s).1 = DOWNLOAD_FAILED
      /\ step (stageEffect w s).1 = DOWNLOADING).
Proof.
  intros Hs Hw. pose proof (reachable_without_worker s Hs Hw) as [Hm Hi].
  split; [done|]. split.
  - unfold all_capabilities. intros Hcap.
    apply andb_true_iff in Hcap as [Hcap Hst].
    apply andb_true_iff in Hcap as [Hu Hwk].
    unfold transition, handle, handleContinue, initialize. simpl.
    rewrite Hu, Hwk, Hst. simpl. done.
  - intros He Hst. unfold stageEffect. simpl. rewrite He, Hst. simpl.
    unfold downloadImages, manifest_steps, mbind, M_bind, read, throw. simpl.
    rewrite Hm. simpl. done.
Qed.

End InitializeFacts.

(** ** The view and the image worker *)

Section ViewFacts.
Import Manifest Fastboot Flash.

(** With an error, what the view shows does not depend on the step,
    the icon style apart, which is that of the step: status,
    description, colour and icon are those of the error, with those of
    the unknown error where the error's entry has none. An error without
    an entry, as [UNPACK_FAILED], is shown as the unknown error. *)
Theorem error_display_ignores_stage st st' e :
  e <> NONE ->
  status (uiState st e) = status (uiState st' e)
  /\ description (uiState st e) = description (uiState st' e)
  /\ bgColor (uiState st e) = bgColor (uiState st' e)
  /\ icon (uiState st e) = icon (uiState st' e)
  /\ iconStyle (uiState st e) = iconStyle (uiState st NONE)
  /\ status (uiState st e) <> status (steps st')
  /\ (errors e = None -> uiState st e = uiState st UNKNOWN)
  /\ is_Some (bgColor (uiState st e)) /\ is_Some (icon (uiState st e)).
Proof.
  intros He.
  destruct e; try done; destruct st, st';
    repeat split; first [reflexivity | discriminate | by eexists].
Qed.









End ViewFacts.

Section WorkerFacts.
Import ImageWorker.

Lemma getWorkerInstance_at_most_one has_window m :
  at_most_one m ->
  at_most_one (getWorkerInstance has_window m).1
  /\ (getWorkerInstance has_window m).2
     = if has_window then Some 0%nat else None.
Proof.
  intros [-> | ->]; destruct has_window; simpl; unfold at_most_one; auto.
Qed.

(** Over any sequence of calls, [getWorkerInstance] builds at most one
    worker, and builds it exactly when some call finds a window; every
    call that finds a window returns that same worker, every other call
    returns nothing. *)
Theorem worker_is_built_once windows :
  (constructed (calls windows start).1 <= 1)%nat
  /\ (calls windows start).2
     = (fun has_window : bool => if has_window then Some 0%nat else None)
       <$> windows
  /\ (constructed (calls windows start).1 = 1%nat <-> true ∈ windows).
Proof.
  assert (Hgen : forall m, at_most_one m ->
            at_most_one (calls windows m).1
            /\ (calls windows m).2
               = (fun has_window : bool => if has_window then Some 0%nat else None)
                 <$> windows
            /\ (constructed (calls windows m).1 = 1%nat
                <-> constructed m = 1%nat \/ true ∈ windows)).
  { induction windows as [|has_window windows IH]; intros m Hm; simpl.
    - split; [done|]. split; [done|]. rewrite elem_of_nil. tauto.
    - destruct (getWorkerInstance_at_most_one has_window m Hm) as [Hm1 Hr].
      destruct (getWorkerInstance has_window m) as [m1 r] eqn:Hcall.
      simpl in Hm1, Hr. destruct (IH m1 Hm1) as (Hm2 & Hrs & Hc).
      destruct (calls windows m1) as [m2 rs]. simpl in *.
      split; [done|]. split; [by rewrite Hr, Hrs|].
      rewrite Hc. destruct Hm as [-> | ->], has_window;
        simpl in Hcall; injection Hcall as <- _; simpl;
        rewrite elem_of_cons; intuition congruence. }
  destruct (Hgen start) as (Hm & Hrs & Hc); [by left|].
  split; [|split; [done|]].
  - destruct Hm as [-> | ->]; simpl; lia.
  - rewrite Hc. simpl. split; [intros [|]; [done|done] | by right].
Qed.

End WorkerFacts.

(** ** The recogniser, exactly *)

Section RecognizerExact.
Import Fastboot.

(** The recogniser accepts a device exactly when its [kernel],
    [max-download-size] and [slot-count] are the expected ones, every
    partition name of the device belongs to the expected list, and its
    [serialno] is present and not empty. *)
Theorem recognizer_accepts_iff (deviceInfo : gmap string string) :
  isRecognizedDevice deviceInfo = true
  <-> deviceInfo !! "kernel" = Some "uefi"
      /\ deviceInfo !! "max-download-size" = Some "104857600"
      /\ deviceInfo !! "slot-count" = Some "2"
      /\ (forall p, partition_name deviceInfo p -> p ∈ expectedPartitions)
      /\ (exists serialno,
            deviceInfo !! "serialno" = Some serialno /\ serialno <> EmptyString).
Proof.
  unfold isRecognizedDevice. split.
  - destruct (differs (deviceInfo !! "kernel") "uefi") eqn:Hk; [done|].
    destruct (differs (deviceInfo !! "max-download-size") "104857600") eqn:Hm;
      [done|].
    destruct (differs (deviceInfo !! "slot-count") "2") eqn:Hs; [done|]. simpl.
    destruct (forallb _ _) eqn:Hall; [|done]. simpl.
    destruct (deviceInfo !! "serialno") as [serialno|] eqn:Hsn; [|done]. simpl.
    destruct (String.eqb_spec serialno EmptyString) as [|Hne]; [done|]. intros _.
    apply differs_false in Hk, Hm, Hs.
    split; [done|]. split; [done|]. split; [done|]. split.
    + intros p Hp. apply (proj1 (forallb_expected _) Hall). by apply partitions_spec.
    + by exists serialno.
  - intros (Hk & Hm & Hs & Hsub & serialno & Hsn & Hne).
    rewrite (proj2 (differs_false _ _) Hk), (proj2 (differs_false _ _) Hm),
      (proj2 (differs_false _ _) Hs). simpl.
    rewrite (proj2 (forallb_expected _)); simpl.
    + rewrite Hsn. simpl. by destruct (String.eqb_spec serialno EmptyString).
    + intros p Hp. by apply Hsub, partitions_spec.
Qed.

End RecognizerExact.

(** ** The properties on the sample session *)

Section AggregateScenarios.
Import Progress.




Lemma withProgress_pairs_witness :
  (withProgress [Scenario.boot; Scenario.system] 0).2 !! 1%nat
  = Some (Scenario.system, Some (step_callback 1))
  /\ length (withProgress [Scenario.boot; Scenario.system] 0).2 = 2%nat.
Proof.
  assert (Hi : [Scenario.boot; Scenario.system] !! 1%nat = Some Scenario.system)
    by reflexivity.
  destruct (withProgress_pairs [Scenario.boot; Scenario.system] 0 1
              Scenario.system Hi) as (Hpair & Hlen & _).
  split; [exact Hpair | exact Hlen].
Defined.

End AggregateScenarios.

Section StageScenarios.
Import Manifest Fastboot Scenario.





Lemma erase_stage_outcomes_witness :
  step at_erasing = ERASING
  /\ error at_erasing = NONE
  /\ (stageEffect (obliging "a") at_erasing).2
     = [RunCommand "erase:userdata"; RunCommand "continue"]
  /\ step (stageEffect (obliging "a") at_erasing).1 = DONE
  /\ connected (stageEffect (obliging "a") at_erasing).1 = false.
Proof.
  assert (Hst : step at_erasing = ERASING) by (vm_compute; reflexivity).
  assert (He : error at_erasing = NONE) by (vm_compute; reflexivity).
  destruct (erase_stage_outcomes (obliging "a") at_erasing Hst He) as [Hdone _].
  destruct (Hdone VUndefined VUndefined eq_refl eq_refl)
    as (Htr & Hstep & _ & _ & Hconn).
  split; [exact Hst|]. split; [exact He|]. split; [exact Htr|].
  split; [exact Hstep | exact Hconn].
Defined.



Lemma connect_failure_returns_to_ready_witness :
  step at_connecting = CONNECTING
  /\ answer dismissed [WaitForConnect] Connect = Rejected "No device selected"
  /\ answer dismissed [] WaitForConnect = Pending
  /\ transition (Stage dismissed) at_connecting
     = set_step READY (set_message EmptyString (set_progress (-1) at_connecting)).
Proof.
  assert (Hst : step at_connecting = CONNECTING) by (vm_compute; reflexivity).
  assert (He : error at_connecting = NONE) by (vm_compute; reflexivity).
  assert (Hc : answer dismissed [WaitForConnect] Connect
               = Rejected "No device selected") by reflexivity.
  assert (Hw : answer dismissed [] WaitForConnect = Pending) by reflexivity.
  split; [exact Hst|]. split; [exact Hc|]. split; [exact Hw|].
  exact (proj2 (connect_failure_returns_to_ready dismissed at_connecting
                  "No device selected" Hst He Hc Hw)).
Defined.


Lemma missing_capability_is_final_witness :
  all_capabilities no_usb = false
  /\ error (transition (Mount no_usb) (initial true)) = REQUIREMENTS_NOT_MET
  /\ transition (Continue (capable (Loaded [boot])))
       (transition (Mount no_usb) (initial true))
     = transition (Mount no_usb) (initial true).
Proof.
  assert (Hcap : all_capabilities no_usb = false) by reflexivity.
  destruct (missing_capability_is_final no_usb (initial true)
              eq_refl eq_refl Hcap) as (Herr & _ & _ & Hlater).
  destruct (Hlater (capable (Loaded [boot]))) as (_ & _ & Hcont).
  split; [exact Hcap|]. split; [exact Herr | exact Hcont].
Defined.

Lemma failed_load_can_be_retried_witness :
  let s1 := transition (Mount (capable LoadThrows)) (initial true) in
  let s2 := transition (Mount (capable (Loaded [boot]))) s1 in
  error s1 = UNKNOWN /\ isInitialized s2 = true /\ manifest s2 = Some [boot]
  /\ error s2 = UNKNOWN
  /\ step (transition (Continue (capable (Loaded [boot]))) s2) = READY.
Proof.
  cbv zeta.
  assert (Hne : [boot] <> []) by discriminate.
  destruct (failed_load_can_be_retried (capable LoadThrows)
              (capable (Loaded [boot])) [boot] (initial true)
              eq_refl eq_refl eq_refl eq_refl eq_refl eq_refl eq_refl eq_refl Hne)
    as (He1 & _ & Hi2 & Hm2 & He2 & Hcont).
  split; [exact He1|]. split; [exact Hi2|]. split; [exact Hm2|].
  split; [exact He2 | exact (Hcont (capable (Loaded [boot])))].
Defined.

Lemma manifest_is_loaded_once_witness :
  isInitialized at_connecting = true
  /\ manifest (transition (Mount (capable (Loaded [system]))) at_connecting)
     = manifest at_connecting.
Proof.
  assert (Hi : isInitialized at_connecting = true) by (vm_compute; reflexivity).
  split; [exact Hi|].
  exact (proj1 (manifest_is_loaded_once (Mount (capable (Loaded [system])))
                  at_connecting Hi)).
Defined.

Lemma continue_restarts_from_any_step_witness :
  step at_flashing = FLASHING
  /\ isInitialized at_flashing = true
  /\ error at_flashing = NONE
  /\ transition (Continue no_usb) at_flashing = set_step CONNECTING at_flashing.
Proof.
  assert (Hst : step at_flashing = FLASHING) by (vm_compute; reflexivity).
  assert (Hi : isInitialized at_flashing = true) by (vm_compute; reflexivity).
  assert (He : error at_flashing = NONE) by (vm_compute; reflexivity).
  split; [exact Hst|]. split; [exact Hi|]. split; [exact He|].
  exact (proj1 (continue_restarts_from_any_step no_usb at_flashing Hi He)).
Defined.

Lemma missing_worker_fails_at_download_witness :
  reachable without_worker
  /\ imageWorker without_worker = false
  /\ step without_worker = DOWNLOADING
  /\ never_loaded without_worker
  /\ (stageEffect (obliging "a") without_worker).2 = []
  /\ error (stageEffect (obliging "a") without_worker).1 = DOWNLOAD_FAILED.
Proof.
  assert (Hs : reachable without_worker).
  { unfold without_worker. do 2 apply reachable_transition.
    apply reachable_initial. }
  assert (Hw : imageWorker without_worker = false) by (vm_compute; reflexivity).
  assert (He : error without_worker = NONE) by (vm_compute; reflexivity).
  assert (Hst : step without_worker = DOWNLOADING) by (vm_compute; reflexivity).
  destruct (missing_worker_fails_at_download (obliging "a") no_usb
              without_worker Hs Hw) as (Hnever & _ & Hfail).
  destruct (Hfail He Hst) as (Htr & Herr & _).
  split; [exact Hs|]. split; [exact Hw|]. split; [exact Hst|].
  split; [exact Hnever|]. split; [exact Htr | exact Herr].
Defined.

End StageScenarios.

Section ViewScenarios.
Import Manifest Fastboot Flash Scenario.

Lemma error_display_ignores_stage_witness :
  UNPACK_FAILED <> NONE
  /\ status (uiState UNPACKING UNPACK_FAILED) = status (uiState READY UNPACK_FAILED)
  /\ uiState UNPACKING UNPACK_FAILED = uiState UNPACKING UNKNOWN.
Proof.
  assert (He : UNPACK_FAILED <> NONE) by discriminate.
  destruct (error_display_ignores_stage UNPACKING READY UNPACK_FAILED He)
    as (Hstatus & _ & _ & _ & _ & _ & Hunknown & _).
  split; [exact He|]. split; [exact Hstatus | exact (Hunknown eq_refl)].
Defined.


End ViewScenarios.
